(** * Instance managers of the Redis Labs service broker

    A shallow embedding of [redislabs/instancemanagers/default.go]: the
    [defaultCreator] with its [Create], [Update], [Destroy] and
    [InstanceExists] operations, over an explicit world holding the durable
    broker state and the log of the calls the code makes to its
    collaborators (the state persister, the cluster API client and the
    creation mutex). *)

From Stdlib Require Import List String ZArith Bool Lia.
Import ListNotations.
Local Open Scope string_scope.
Local Open Scope list_scope.

(** ** Data model *)

(** Errors returned by the code.  The named ones are the package's error
    values and [brokerapi.ErrInstanceDoesNotExist]; the collaborators
    (persister, API client) may return any error, which the code passes
    through: [PersisterErr] and [ClientErr] stand for those. *)
Inductive error : Type :=
| ErrFailedToLoadState
| ErrFailedToSaveState
| ErrInstanceExists
| ErrCreateDatabaseTimeoutExpired
| ErrInstanceDoesNotExist
| PersisterErr (code : nat)
| ClientErr (code : nat).

(** Go's [(T, error)] pair: a value or a non-nil error. *)
Inductive result (A : Type) : Type :=
| Ok (a : A)
| Err (e : error).
Arguments Ok {A} a.
Arguments Err {A} e.

(** Modelled from the spec: [cluster.InstanceCredentials] (package
    [redislabs/cluster], not part of the sources) is an opaque struct
    holding the cluster-assigned [UID] (a Go [int]) and the connection
    secrets. *)
Record InstanceCredentials : Type := mkCredentials {
  UID : Z;
  Secrets : list (string * string)
}.

(** [persisters.ServiceInstance]. *)
Record ServiceInstance : Type := mkServiceInstance {
  ID : string;
  Credentials : InstanceCredentials
}.

(** [persisters.State]. *)
Record State : Type := mkState {
  AvailableInstances : list ServiceInstance
}.

(** The [map[string]interface{}] settings and update parameters, passed
    through to the API client untouched. *)
Definition Settings := list (string * string).

(** [var WaitingForDatabaseTimeout = 15 //seconds]: a Go [int], 64 bits
    wide on the 64-bit platforms the broker is built for. *)
Definition WaitingForDatabaseTimeout_default : Z := 15.

(** Go's [int64] (and [time.Duration]) arithmetic wraps around modulo
    2^64 into [-2^63, 2^63). *)
Definition int64_wrap (z : Z) : Z :=
  let m := (z mod 18446744073709551616)%Z in
  if Z.ltb m 9223372036854775808 then m else (m - 18446744073709551616)%Z.

(** [time.Second], in nanoseconds. *)
Definition Second : Z := 1000000000%Z.

(** [time.Second * time.Duration(WaitingForDatabaseTimeout)]: the
    duration, in nanoseconds, handed to [time.After]. *)
Definition timer_duration (timeout : Z) : Z := int64_wrap (Second * timeout)%Z.

(** ** Collaborators *)

(** What the channel returned by [apiClient.CreateDatabase] does: it
    delivers the credentials [after] nanoseconds after the [select] starts
    waiting on it, or is never written to. *)
Inductive Completion : Type :=
| Arrives (after : N) (cred : InstanceCredentials)
| Never.

(** The [apiclient.Client] used by the code. *)
Record Client : Type := mkClient {
  create_database : Settings -> result Completion;
  update_database : Z -> Settings -> option error;
  delete_database : Z -> option error
}.

(** The [persisters.StatePersister]: whether [Load] and [Save] fail (and
    with which error).  A successful [Load] returns a snapshot of the
    durable state; a successful [Save] makes its argument durable. *)
Record Persister : Type := mkPersister {
  load_fails : option error;
  save_fails : option error
}.

(** The calls the code makes, in order. *)
Inductive Event : Type :=
| EvLock
| EvUnlock
| EvLoad
| EvSave (st : State)
| EvCreateDatabase (settings : Settings)
| EvReceive
| EvUpdateDatabase (uid : Z) (params : Settings)
| EvDeleteDatabase (uid : Z).

Record World : Type := mkWorld {
  durable : State;
  events : list Event
}.

(** ** A state monad over the world *)

Definition M (A : Type) : Type := World -> A * World.

Definition ret {A} (a : A) : M A := fun w => (a, w).

Definition bind {A B} (m : M A) (k : A -> M B) : M B :=
  fun w => let (a, w') := m w in k a w'.

Notation "x <- m ;; k" := (bind m (fun x => k))
  (at level 61, m at next level, right associativity).
Notation "m ;;; k" := (bind m (fun _ => k))
  (at level 61, right associativity).

Definition emit (e : Event) : M unit :=
  fun w => (tt, mkWorld (durable w) (events w ++ [e])).

(** [d.lock.Lock()] and [d.lock.Unlock()]. *)
Definition lock : M unit := emit EvLock.
Definition unlock : M unit := emit EvUnlock.

(** [persister.Load()]. *)
Definition Load (p : Persister) : M (result State) :=
  emit EvLoad ;;;
  fun w => match load_fails p with
           | Some e => (Err e, w)
           | None => (Ok (durable w), w)
           end.

(** [persister.Save(state)]. *)
Definition Save (p : Persister) (st : State) : M (option error) :=
  emit (EvSave st) ;;;
  fun w => match save_fails p with
           | Some e => (Some e, w)
           | None => (None, mkWorld st (events w))
           end.

(** [d.apiClient.CreateDatabase(settings)]. *)
Definition apiCreateDatabase (c : Client) (s : Settings) : M (result Completion) :=
  emit (EvCreateDatabase s) ;;; ret (create_database c s).

(** The [select] between the completion channel and
    [time.After(time.Second * time.Duration(WaitingForDatabaseTimeout))].
    The timer fires [timer_duration timeout] nanoseconds after the wait
    starts, at once when that duration is not positive.  Credentials sent
    before the timer fires win; a channel never written to, or written to
    when or after the timer fires, loses to the timer (when both are ready
    at once Go's [select] may pick either case; the model takes the
    timer). *)
Definition select_completion (timeout : Z) (ch : Completion)
  : result InstanceCredentials :=
  match ch with
  | Arrives after cred => if Z.ltb (Z.of_N after) (timer_duration timeout) then Ok cred
                          else Err ErrCreateDatabaseTimeoutExpired
  | Never => Err ErrCreateDatabaseTimeoutExpired
  end.

(** [d.apiClient.UpdateDatabase(UID, params)]. *)
Definition updateDatabase (c : Client) (uid : Z) (params : Settings) : M (option error) :=
  emit (EvUpdateDatabase uid params) ;;; ret (update_database c uid params).

(** [d.apiClient.DeleteDatabase(UID)]. *)
Definition deleteDatabase (c : Client) (uid : Z) : M (option error) :=
  emit (EvDeleteDatabase uid) ;;; ret (delete_database c uid).

(** ** The operations of [defaultCreator] *)

(** [createDatabase(settings)]: ask the cluster for a database and wait
    for its credentials (the [for]/[select] loop returns on its first
    iteration in both branches). *)
Definition createDatabase (c : Client) (timeout : Z) (settings : Settings)
  : M (result InstanceCredentials) :=
  r <- apiCreateDatabase c settings ;;
  match r with
  | Err e => ret (Err e)
  | Ok ch => emit EvReceive ;;; ret (select_completion timeout ch)
  end.

(** The loop of [Create] looking for an instance with the given ID. *)
Fixpoint instance_exists (instanceID : string) (l : list ServiceInstance) : bool :=
  match l with
  | [] => false
  | s :: rest => if String.eqb (ID s) instanceID then true
                 else instance_exists instanceID rest
  end.

(** [Create(instanceID, settings, persister)]; [timeout] is the value of
    [WaitingForDatabaseTimeout] at the time of the call.  The [defer
    d.lock.Unlock()] runs on every return: the body is computed first and
    the unlock follows it.  On the load-failure path lager's [Fatal]
    panics after logging, so the [return ErrFailedToLoadState] after it is
    never reached: the model returns that error in place of the panic,
    with the same calls (the deferred unlock runs on the panic too) and
    the same durable state. *)
Definition Create (c : Client) (timeout : Z) (instanceID : string)
  (settings : Settings) (persister : Persister) : M (option error) :=
  lock ;;;
  res <- (r <- Load persister ;;
          match r with
          | Err _ => ret (Some ErrFailedToLoadState)
          | Ok state =>
              if instance_exists instanceID (AvailableInstances state)
              then ret (Some ErrInstanceExists)
              else
                cr <- createDatabase c timeout settings ;;
                match cr with
                | Err e => ret (Some e)
                | Ok credentials =>
                    let s := mkServiceInstance instanceID credentials in
                    let state' := mkState (AvailableInstances state ++ [s]) in
                    se <- Save persister state' ;;
                    match se with
                    | Some _ => ret (Some ErrFailedToSaveState)
                    | None => ret None
                    end
                end
          end) ;;
  unlock ;;;
  ret res.

(** The loop of [Update]: forward the update for the first instance with
    the given ID. *)
Fixpoint update_loop (c : Client) (instanceID : string) (params : Settings)
  (l : list ServiceInstance) : M (option error) :=
  match l with
  | [] => ret (Some ErrInstanceDoesNotExist)
  | instance :: rest =>
      if String.eqb (ID instance) instanceID
      then updateDatabase c (UID (Credentials instance)) params
      else update_loop c instanceID params rest
  end.

(** [Update(instanceID, params, persister)]. *)
Definition Update (c : Client) (instanceID : string) (params : Settings)
  (persister : Persister) : M (option error) :=
  r <- Load persister ;;
  match r with
  | Err e => ret (Some e)
  | Ok state => update_loop c instanceID params (AvailableInstances state)
  end.

(** The loop of [Destroy]: delete every instance with the given ID,
    keep the others in [instancesLeft]; returns the client's error as soon
    as a deletion fails. *)
Fixpoint destroy_loop (c : Client) (instanceID : string)
  (l instancesLeft : list ServiceInstance) (removed : bool)
  : M (result (list ServiceInstance * bool)) :=
  match l with
  | [] => ret (Ok (instancesLeft, removed))
  | instance :: rest =>
      if String.eqb (ID instance) instanceID
      then e <- deleteDatabase c (UID (Credentials instance)) ;;
           match e with
           | Some err => ret (Err err)
           | None => destroy_loop c instanceID rest instancesLeft true
           end
      else destroy_loop c instanceID rest (instancesLeft ++ [instance]) removed
  end.

(** [Destroy(instanceID, persister)]. *)
Definition Destroy (c : Client) (instanceID : string) (persister : Persister)
  : M (option error) :=
  r <- Load persister ;;
  match r with
  | Err e => ret (Some e)
  | Ok state =>
      lr <- destroy_loop c instanceID (AvailableInstances state) [] false ;;
      match lr with
      | Err e => ret (Some e)
      | Ok (instancesLeft, removed) =>
          if negb removed then ret (Some ErrInstanceDoesNotExist)
          else
            se <- Save persister (mkState instancesLeft) ;;
            match se with
            | Some e => ret (Some e)
            | None => ret None
            end
      end
  end.

(** [InstanceExists(instanceID, persister)]. *)
Definition InstanceExists (instanceID : string) (persister : Persister)
  : M (bool * option error) :=
  ret (false, None).

(** ** Observations on runs *)

(** The states handed to [Save] in a list of calls. *)
Fixpoint saved_states (l : list Event) : list State :=
  match l with
  | [] => []
  | EvSave st :: rest => st :: saved_states rest
  | _ :: rest => saved_states rest
  end.

(** The records of a list carrying a given ID. *)
Definition with_id (instanceID : string) (l : list ServiceInstance)
  : list ServiceInstance :=
  filter (fun s => String.eqb (ID s) instanceID) l.

(** The calls made by a run of [m] from [w]. *)
Definition run_events {A} (m : M A) (w : World) : list Event :=
  skipn (List.length (events w)) (events (snd (m w))).

Definition is_delete (e : Event) : Prop :=
  exists uid, e = EvDeleteDatabase uid.

(** Calls on the creation mutex. *)
Definition is_lock_event (e : Event) : bool :=
  match e with
  | EvLock | EvUnlock => true
  | _ => false
  end.

Definition lock_free (l : list Event) : bool :=
  forallb (fun e => negb (is_lock_event e)) l.

(** A list of calls that takes the mutex first, releases it last, and
    touches it nowhere in between. *)
Definition locked_section (l : list Event) : bool :=
  match l with
  | EvLock :: rest =>
      match rev rest with
      | EvUnlock :: rmid => lock_free rmid
      | _ => false
      end
  | _ => false
  end.

(** The records [Destroy] keeps. *)
Definition others (instanceID : string) (l : list ServiceInstance)
  : list ServiceInstance :=
  filter (fun s => negb (String.eqb (ID s) instanceID)) l.

(** ** Concurrent runs *)

Module Concurrency.

(** Whether a thread holds the mutex after the calls it has made. *)
Definition holds_after (held : bool) (e : Event) : bool :=
  match e with
  | EvLock => true
  | EvUnlock => false
  | _ => held
  end.

Definition holds (done : list Event) : bool := fold_left holds_after done false.

(** A thread: the [defaultCreator] (numbered) whose method it runs, how
    many of its calls it has made, and its calls. *)
Record Thread : Type := mkThread {
  manager : nat;
  pc : nat;
  prog : list Event
}.

Definition inside (t : Thread) : bool := holds (firstn (pc t) (prog t)).

Definition advance (t : Thread) : Thread := mkThread (manager t) (S (pc t)) (prog t).

(** Each [defaultCreator] has its own [lock] field: [mutex_locked d]
    tells whether the mutex of manager [d] is locked. *)
Record Config : Type := mkConfig {
  mutex_locked : nat -> bool;
  threads : list Thread
}.

(** [sync.Mutex]: [Lock] blocks while the mutex is locked; [Unlock]
    releases it.  Other calls leave it alone. *)
Definition mutex_step (locked : bool) (e : Event) : option bool :=
  match e with
  | EvLock => if locked then None else Some true
  | EvUnlock => Some false
  | _ => Some locked
  end.

Definition set_locked (f : nat -> bool) (d : nat) (b : bool) : nat -> bool :=
  fun d' => if Nat.eqb d' d then b else f d'.

Fixpoint replace_nth {A} (i : nat) (x : A) (l : list A) : list A :=
  match l, i with
  | [], _ => []
  | _ :: rest, 0 => x :: rest
  | y :: rest, S i => y :: replace_nth i x rest
  end.

(** Any thread that is not blocked makes its next call; [Lock] and
    [Unlock] act on the mutex of the thread's own manager. *)
Inductive step : Config -> Config -> Prop :=
| step_call : forall cfg i t e locked',
    nth_error (threads cfg) i = Some t ->
    nth_error (prog t) (pc t) = Some e ->
    mutex_step (mutex_locked cfg (manager t)) e = Some locked' ->
    step cfg (mkConfig (set_locked (mutex_locked cfg) (manager t) locked')
                       (replace_nth i (advance t) (threads cfg))).

Inductive steps : Config -> Config -> Prop :=
| steps_refl : forall cfg, steps cfg cfg
| steps_trans : forall cfg1 cfg2 cfg3,
    step cfg1 cfg2 -> steps cfg2 cfg3 -> steps cfg1 cfg3.

(** The calls to the coordinator running concurrently: the manager [d]
    each is a method call on, and the world it starts from. *)
Inductive Call : Type :=
| CallCreate (d : nat) (c : Client) (timeout : Z) (instanceID : string)
    (settings : Settings) (p : Persister) (w : World)
| CallUpdate (d : nat) (c : Client) (instanceID : string) (params : Settings)
    (p : Persister) (w : World)
| CallDestroy (d : nat) (c : Client) (instanceID : string) (p : Persister) (w : World)
| CallInstanceExists (d : nat) (instanceID : string) (p : Persister) (w : World).

Definition call_manager (k : Call) : nat :=
  match k with
  | CallCreate d _ _ _ _ _ _ | CallUpdate d _ _ _ _ _
  | CallDestroy d _ _ _ _ | CallInstanceExists d _ _ _ => d
  end.

Definition call_events (k : Call) : list Event :=
  match k with
  | CallCreate _ c timeout instanceID settings p w =>
      run_events (Create c timeout instanceID settings p) w
  | CallUpdate _ c instanceID params p w => run_events (Update c instanceID params p) w
  | CallDestroy _ c instanceID p w => run_events (Destroy c instanceID p) w
  | CallInstanceExists _ instanceID p w => run_events (InstanceExists instanceID p) w
  end.

Definition is_create (k : Call) : bool :=
  match k with CallCreate _ _ _ _ _ _ _ => true | _ => false end.

Definition init (calls : list Call) : Config :=
  mkConfig (fun _ => false)
    (map (fun k => mkThread (call_manager k) 0 (call_events k)) calls).

(** The threads inside a locked section, over all managers and on manager
    [d]. *)
Definition count_inside (ts : list Thread) : nat := List.length (filter inside ts).

Definition inside_on (d : nat) (t : Thread) : bool := Nat.eqb (manager t) d && inside t.

Definition count_inside_on (d : nat) (ts : list Thread) : nat :=
  List.length (filter (inside_on d) ts).

End Concurrency.

Import Concurrency.

(** The invariant of concurrent runs: the threads run the calls on their
    managers, and the mutex of each manager is locked exactly when one of
    its threads is inside its locked section. *)
Definition mutex_inv (calls : list Call) (cfg : Config) : Prop :=
  map (fun t => (manager t, prog t)) (threads cfg)
    = map (fun k => (call_manager k, call_events k)) calls
  /\ forall d, count_inside_on d (threads cfg) = if mutex_locked cfg d then 1 else 0.

(** ** Concrete collaborators and states *)

Definition cred (uid : Z) : InstanceCredentials := mkCredentials uid [].

Definition persister_ok : Persister := mkPersister None None.

Definition world_of (l : list ServiceInstance) : World := mkWorld (mkState l) [].

(** A cluster that delivers [cr] one second after each creation request
    and accepts every update and deletion. *)
Definition client_delivering (cr : InstanceCredentials) : Client :=
  mkClient (fun _ => Ok (Arrives 1000000000%N cr)) (fun _ _ => None) (fun _ => None).


(** A cluster whose deletions fail. *)
Definition client_delete_failing : Client :=
  mkClient (fun _ => Ok Never) (fun _ _ => None) (fun _ => Some (ClientErr 1)).

(** A cluster that rejects every creation request. *)
Definition client_rejecting : Client :=
  mkClient (fun _ => Err (ClientErr 2)) (fun _ _ => None) (fun _ => None).

Definition persister_save_failing : Persister := mkPersister None (Some (PersisterErr 3)).

Definition persister_load_failing : Persister := mkPersister (Some (PersisterErr 4)) None.

Definition record_a : ServiceInstance := mkServiceInstance "a" (cred 1).

Definition record_b : ServiceInstance := mkServiceInstance "b" (cred 2).

(** Two creations on the same manager. *)
Definition two_creates : list Call :=
  [CallCreate 0 (client_delivering (cred 7)) WaitingForDatabaseTimeout_default
     "x" [] persister_ok (world_of []);
   CallCreate 0 (client_delivering (cred 8)) WaitingForDatabaseTimeout_default
     "y" [] persister_ok (world_of [])].

(** Two creations on two managers built by two calls of [NewDefault]. *)
Definition two_manager_creates : list Call :=
  [CallCreate 0 (client_delivering (cred 7)) WaitingForDatabaseTimeout_default
     "x" [] persister_ok (world_of []);
   CallCreate 1 (client_delivering (cred 8)) WaitingForDatabaseTimeout_default
     "y" [] persister_ok (world_of [])].

(** ** Sequences of operations *)

(** One call to the coordinator, with the collaborators it is made with. *)
Inductive Op : Type :=
| OpCreate (c : Client) (timeout : Z) (instanceID : string)
    (settings : Settings) (p : Persister)
| OpUpdate (c : Client) (instanceID : string) (params : Settings) (p : Persister)
| OpDestroy (c : Client) (instanceID : string) (p : Persister)
| OpInstanceExists (instanceID : string) (p : Persister).

Definition run_op (o : Op) : M unit :=
  match o with
  | OpCreate c timeout instanceID settings p =>
      Create c timeout instanceID settings p ;;; ret tt
  | OpUpdate c instanceID params p => Update c instanceID params p ;;; ret tt
  | OpDestroy c instanceID p => Destroy c instanceID p ;;; ret tt
  | OpInstanceExists instanceID p => InstanceExists instanceID p ;;; ret tt
  end.

(** The calls made one after the other on the same store. *)
Fixpoint run_ops (ops : list Op) : M unit :=
  match ops with
  | [] => ret tt
  | o :: rest => run_op o ;;; run_ops rest
  end.

(** ** Generic facts about the embedding *)

Lemma skipn_length_app : forall (l ev : list Event),
  skipn (List.length l) (l ++ ev) = ev.
Proof. intros l ev; induction l; simpl; auto. Qed.

Lemma run_events_extends : forall {A} (m : M A) w r st ev,
  m w = (r, mkWorld st (events w ++ ev)) -> run_events m w = ev.
Proof.
  intros A m w r st ev H; unfold run_events; rewrite H; simpl.
  apply skipn_length_app.
Qed.

Lemma instance_exists_spec : forall instanceID l,
  instance_exists instanceID l = true <->
  exists s, In s l /\ ID s = instanceID.
Proof.
  intros instanceID l; induction l as [|s rest IH]; simpl.
  - split; [discriminate | intros (x & [] & _)].
  - destruct (String.eqb_spec (ID s) instanceID) as [E|NE].
    + split; [intros _; exists s; auto | reflexivity].
    + rewrite IH; split.
      * intros (x & Hin & Hx); exists x; auto.
      * intros (x & [<-|Hin] & Hx); [contradiction | exists x; auto].
Qed.

Lemma instance_exists_false : forall instanceID l,
  (forall s, In s l -> ID s <> instanceID) ->
  instance_exists instanceID l = false.
Proof.
  intros instanceID l H.
  destruct (instance_exists instanceID l) eqn:E; [|reflexivity].
  apply instance_exists_spec in E as (s & Hin & Hs).
  exfalso; exact (H s Hin Hs).
Qed.

(** ** Create *)

Section Int64.
Local Open Scope Z_scope.

Lemma int64_wrap_small : forall z,
  -9223372036854775808 <= z < 9223372036854775808 -> int64_wrap z = z.
Proof.
  intros z Hz; unfold int64_wrap.
  pose proof (Z.div_mod z 18446744073709551616 ltac:(lia)) as Hdm.
  pose proof (Z.mod_pos_bound z 18446744073709551616 ltac:(lia)) as Hb.
  set (q := z / 18446744073709551616) in *.
  set (m := z mod 18446744073709551616) in *.
  destruct (Z.ltb_spec m 9223372036854775808); lia.
Qed.


(** Up to 9223372036 seconds, the timer lasts the configured number of
    seconds. *)
Lemma timer_duration_exact : forall timeout,
  -9223372036 <= timeout <= 9223372036 -> timer_duration timeout = Second * timeout.
Proof.
  intros timeout H; unfold timer_duration, Second.
  apply int64_wrap_small; lia.
Qed.

Lemma select_completion_in_time : forall timeout after cred,
  (timeout <= 9223372036)%Z -> (Z.of_N after < Second * timeout)%Z ->
  select_completion timeout (Arrives after cred) = Ok cred.
Proof.
  intros timeout after cred Hmax H; unfold select_completion.
  assert (Hpos : 0 < timeout) by (unfold Second in H; lia).
  rewrite timer_duration_exact by lia.
  destruct (Z.ltb_spec (Z.of_N after) (Second * timeout)); [reflexivity | lia].
Qed.


End Int64.

(** C1 (as amended): when the state loads, no record has the requested
    ID, the cluster accepts the request, [WaitingForDatabaseTimeout] is at
    most 9223372036 (so that this many seconds fit in a [time.Duration])
    and the credentials arrive before the timeout,
    [Create] hands to [Save] the loaded records followed by exactly one new
    record [{ID: instanceID, Credentials: cred}], and returns nil when the
    save succeeds (the new state is then the durable one). *)
Theorem create_appends_record :
  forall c timeout instanceID settings p w after cred,
    load_fails p = None ->
    (forall s, In s (AvailableInstances (durable w)) -> ID s <> instanceID) ->
    create_database c settings = Ok (Arrives after cred) ->
    (timeout <= 9223372036)%Z -> (Z.of_N after < Second * timeout)%Z ->
    let st' := mkState (AvailableInstances (durable w)
                          ++ [mkServiceInstance instanceID cred]) in
    Create c timeout instanceID settings p w =
      (match save_fails p with Some _ => Some ErrFailedToSaveState | None => None end,
       mkWorld (match save_fails p with Some _ => durable w | None => st' end)
         (events w ++ [EvLock; EvLoad; EvCreateDatabase settings; EvReceive;
                       EvSave st'; EvUnlock])).
Proof.
  intros c timeout instanceID settings p w after cred Hload Hfresh Hcreate Hmax Hlt st'.
  apply instance_exists_false in Hfresh.
  unfold Create, lock, unlock, Load, Save, createDatabase, apiCreateDatabase,
    emit, bind, ret; cbn.
  rewrite Hload; cbn; rewrite Hfresh, Hcreate.
  rewrite (select_completion_in_time _ _ cred Hmax Hlt).
  destruct (save_fails p); cbn; repeat rewrite <- app_assoc; reflexivity.
Qed.

Lemma with_id_unique : forall instanceID l s,
  NoDup (map ID l) -> In s l -> ID s = instanceID ->
  List.length (with_id instanceID l) = 1.
Proof.
  intros instanceID l; induction l as [|x rest IH]; intros s Hnd Hin Hs;
    [destruct Hin|].
  simpl in Hnd; inversion Hnd as [|? ? Hnotin Hnd']; subst.
  unfold with_id; simpl.
  destruct (String.eqb_spec (ID x) (ID s)) as [E|NE].
  - simpl; f_equal.
    destruct (filter (fun s0 => String.eqb (ID s0) (ID s)) rest) as [|y ys] eqn:F;
      [reflexivity|].
    exfalso; apply Hnotin.
    assert (Hy : In y (filter (fun s0 => String.eqb (ID s0) (ID s)) rest))
      by (rewrite F; left; reflexivity).
    apply filter_In in Hy as [Hy Hye]; apply String.eqb_eq in Hye.
    rewrite E, <- Hye; apply in_map; exact Hy.
  - destruct Hin as [<-|Hin]; [contradiction|].
    exact (IH s Hnd' Hin eq_refl).
Qed.

(** C2: when the state loads and a record already carries the requested
    ID, [Create] returns [ErrInstanceExists] after loading the state only:
    no [CreateDatabase] request and no [Save] are issued, the durable state
    is unchanged, and when the durable state has pairwise-distinct IDs it
    still holds exactly one record with that ID. *)
Theorem create_rejects_existing :
  forall c timeout instanceID settings p w s,
    load_fails p = None ->
    In s (AvailableInstances (durable w)) -> ID s = instanceID ->
    Create c timeout instanceID settings p w =
      (Some ErrInstanceExists,
       mkWorld (durable w) (events w ++ [EvLock; EvLoad; EvUnlock]))
    /\ (NoDup (map ID (AvailableInstances (durable w))) ->
        List.length (with_id instanceID (AvailableInstances (durable w))) = 1).
Proof.
  intros c timeout instanceID settings p w s Hload Hin Hs.
  split.
  - assert (Hex : instance_exists instanceID (AvailableInstances (durable w)) = true)
      by (apply instance_exists_spec; exists s; auto).
    unfold Create, lock, unlock, Load, emit, bind, ret; cbn.
    rewrite Hload; cbn; rewrite Hex; cbn.
    repeat rewrite <- app_assoc; reflexivity.
  - intros Hnd; exact (with_id_unique _ _ s Hnd Hin Hs).
Qed.


(** ** InstanceExists *)

(** C9: [InstanceExists] reports [(false, nil)] for every ID and every
    persister, and touches neither the store nor any collaborator. *)
Theorem instance_exists_always_false : forall instanceID p w,
  InstanceExists instanceID p w = ((false, None), w).
Proof. reflexivity. Qed.

(** ** Update *)

Lemma update_loop_run : forall c instanceID params l w,
  update_loop c instanceID params l w =
    match find (fun s => String.eqb (ID s) instanceID) l with
    | None => (Some ErrInstanceDoesNotExist, w)
    | Some s => (update_database c (UID (Credentials s)) params,
                 mkWorld (durable w)
                   (events w ++ [EvUpdateDatabase (UID (Credentials s)) params]))
    end.
Proof.
  intros c instanceID params l; induction l as [|x rest IH]; intros w;
    [reflexivity|].
  simpl; destruct (String.eqb (ID x) instanceID); [reflexivity | apply IH].
Qed.

(** Every run of [Update]: what it returns, and that it only loads the
    state and possibly forwards one update. *)
Lemma update_run : forall c instanceID params p w,
  exists ev,
    Update c instanceID params p w =
      (match load_fails p with
       | Some e => Some e
       | None =>
           match find (fun s => String.eqb (ID s) instanceID)
                   (AvailableInstances (durable w)) with
           | None => Some ErrInstanceDoesNotExist
           | Some s => update_database c (UID (Credentials s)) params
           end
       end, mkWorld (durable w) (events w ++ ev))
    /\ saved_states ev = [] /\ lock_free ev = true.
Proof.
  intros c instanceID params p w.
  unfold Update, Load, emit, bind, ret; cbn.
  destruct (load_fails p) as [e|].
  - exists [EvLoad]; repeat split.
  - rewrite update_loop_run; cbn.
    destruct (find _ _) as [s|].
    + exists [EvLoad; EvUpdateDatabase (UID (Credentials s)) params].
      rewrite <- app_assoc; repeat split.
    + exists [EvLoad]; repeat split.
Qed.

(** C10: [Update] never calls [Save] and leaves the durable state as it
    was, whatever happens; it returns the load error when the load fails,
    the "instance does not exist" error when no record has the ID, and
    otherwise exactly what the API client returns for the [UID] of the
    record with that ID. *)
Theorem update_never_saves : forall c instanceID params p w,
  durable (snd (Update c instanceID params p w)) = durable w
  /\ saved_states (run_events (Update c instanceID params p) w) = []
  /\ fst (Update c instanceID params p w) =
       match load_fails p with
       | Some e => Some e
       | None =>
           match find (fun s => String.eqb (ID s) instanceID)
                   (AvailableInstances (durable w)) with
           | None => Some ErrInstanceDoesNotExist
           | Some s => update_database c (UID (Credentials s)) params
           end
       end.
Proof.
  intros c instanceID params p w.
  destruct (update_run c instanceID params p w) as (ev & H & Hs & _).
  rewrite (run_events_extends _ _ _ _ _ H), H; auto.
Qed.

(** ** Destroy *)


(** Every run of the loop of [Destroy] only issues deletions, leaves the
    durable state alone, and, when it completes, has kept the records with
    another ID in order and recorded whether one matched. *)
Lemma destroy_loop_frame : forall c instanceID l instancesLeft removed w,
  exists r dels,
    destroy_loop c instanceID l instancesLeft removed w =
      (r, mkWorld (durable w) (events w ++ dels))
    /\ Forall is_delete dels
    /\ (forall left' rm, r = Ok (left', rm) ->
          left' = instancesLeft ++ others instanceID l
          /\ rm = removed || instance_exists instanceID l).
Proof.
  intros c instanceID l; induction l as [|x rest IH];
    intros instancesLeft removed w.
  - exists (Ok (instancesLeft, removed)), []; simpl.
    rewrite app_nil_r, orb_false_r; destruct w; split; [reflexivity|split].
    + constructor.
    + intros left' rm [= <- <-]; rewrite app_nil_r; auto.
  - simpl; unfold others; simpl.
    destruct (String.eqb (ID x) instanceID) eqn:E; simpl.
    + unfold deleteDatabase, emit, bind, ret; cbn.
      destruct (delete_database c (UID (Credentials x))) as [err|].
      * exists (Err err), [EvDeleteDatabase (UID (Credentials x))].
        split; [reflexivity|split; [|discriminate]].
        constructor; [eexists; reflexivity | constructor].
      * destruct (IH instancesLeft true
                    (mkWorld (durable w) (events w ++ [EvDeleteDatabase (UID (Credentials x))])))
          as (r & dels & Heq & Hdel & Hok).
        exists r, (EvDeleteDatabase (UID (Credentials x)) :: dels); simpl in Heq.
        rewrite Heq, <- app_assoc; split; [reflexivity|split].
        -- constructor; [eexists; reflexivity | exact Hdel].
        -- intros left' rm Hr; destruct (Hok left' rm Hr) as [H1 H2].
           split; [exact H1|]; rewrite H2, orb_true_r; reflexivity.
    + destruct (IH (instancesLeft ++ [x]) removed w) as (r & dels & Heq & Hdel & Hok).
      exists r, dels; rewrite Heq; split; [reflexivity|split; [exact Hdel|]].
      intros left' rm Hr; destruct (Hok left' rm Hr) as [H1 H2].
      rewrite H1, <- app_assoc; split; [reflexivity | exact H2].
Qed.

(** When every deletion succeeds, the loop deletes the records with the
    ID, in order, and keeps the others. *)
Lemma destroy_loop_ok : forall c instanceID l instancesLeft removed w,
  (forall s, In s l -> ID s = instanceID -> delete_database c (UID (Credentials s)) = None) ->
  destroy_loop c instanceID l instancesLeft removed w =
    (Ok (instancesLeft ++ others instanceID l,
         removed || instance_exists instanceID l),
     mkWorld (durable w)
       (events w ++ map (fun s => EvDeleteDatabase (UID (Credentials s)))
                      (with_id instanceID l))).
Proof.
  intros c instanceID l; induction l as [|x rest IH];
    intros instancesLeft removed w Hdel.
  - simpl; rewrite !app_nil_r, orb_false_r; destruct w; reflexivity.
  - simpl; unfold others, with_id; simpl.
    destruct (String.eqb_spec (ID x) instanceID) as [E|NE]; simpl.
    + unfold deleteDatabase, emit, bind, ret; cbn.
      rewrite (Hdel x (or_introl eq_refl) E).
      rewrite IH by (intros s Hs; apply Hdel; right; exact Hs); cbn.
      rewrite orb_true_r, <- app_assoc; reflexivity.
    + rewrite IH by (intros s Hs; apply Hdel; right; exact Hs).
      rewrite <- app_assoc; reflexivity.
Qed.

Lemma nodup_map_inj : forall {A B} (f : A -> B) l x y,
  NoDup (map f l) -> In x l -> In y l -> f x = f y -> x = y.
Proof.
  intros A B f l; induction l as [|a rest IH]; intros x y Hnd Hx Hy Hf;
    [destruct Hx|].
  simpl in Hnd; inversion Hnd as [|? ? Hnotin Hnd']; subst.
  destruct Hx as [<-|Hx], Hy as [<-|Hy]; auto.
  - exfalso; apply Hnotin; rewrite Hf; apply in_map; exact Hy.
  - exfalso; apply Hnotin; rewrite <- Hf; apply in_map; exact Hx.
Qed.

(** When the deletion of a record with the ID fails, the loop stops at
    the first record with the ID whose deletion fails and returns the
    client's error for it, having issued deletions only. *)
Lemma destroy_loop_err : forall c instanceID l instancesLeft removed w s e,
  In s l -> ID s = instanceID -> delete_database c (UID (Credentials s)) = Some e ->
  exists e' s' dels,
    destroy_loop c instanceID l instancesLeft removed w =
      (Err e', mkWorld (durable w)
                 (events w ++ dels ++ [EvDeleteDatabase (UID (Credentials s'))]))
    /\ In s' l /\ ID s' = instanceID
    /\ delete_database c (UID (Credentials s')) = Some e'
    /\ Forall is_delete dels.
Proof.
  intros c instanceID l; induction l as [|x rest IH];
    intros instancesLeft removed w s e Hin Hs He; [destruct Hin|].
  simpl.
  destruct (String.eqb_spec (ID x) instanceID) as [E|NE].
  - unfold deleteDatabase, emit, bind, ret; cbn.
    destruct (delete_database c (UID (Credentials x))) as [err|] eqn:Dx.
    + exists err, x, []; simpl; repeat split; auto.
    + destruct Hin as [<-|Hin]; [congruence|].
      destruct (IH instancesLeft true
                  (mkWorld (durable w) (events w ++ [EvDeleteDatabase (UID (Credentials x))]))
                  s e Hin Hs He)
        as (e' & s' & dels & Heq & Hin' & Hs' & He' & Hdel).
      exists e', s', (EvDeleteDatabase (UID (Credentials x)) :: dels).
      simpl in Heq; rewrite Heq, <- app_assoc; simpl.
      repeat split; auto.
      constructor; [eexists; reflexivity | exact Hdel].
  - destruct Hin as [<-|Hin]; [contradiction|].
    destruct (IH (instancesLeft ++ [x]) removed w s e Hin Hs He)
      as (e' & s' & dels & Heq & Hin' & Hs' & He' & Hdel).
    exists e', s', dels; rewrite Heq; repeat split; auto.
Qed.

(** C4: when the state loads and the API client fails to delete a record
    with the requested ID, [Destroy] returns a client error right after
    that failed deletion, without calling [Save]: the durable state,
    matched record included, is unchanged.  The error is the one of the
    first record with the ID whose deletion fails; with pairwise-distinct
    IDs that is the given record's error. *)
Theorem destroy_delete_failure_keeps_state :
  forall c instanceID p w s e,
    load_fails p = None ->
    In s (AvailableInstances (durable w)) -> ID s = instanceID ->
    delete_database c (UID (Credentials s)) = Some e ->
    exists e' s' dels,
      Destroy c instanceID p w =
        (Some e', mkWorld (durable w)
                    (events w ++ EvLoad :: dels
                              ++ [EvDeleteDatabase (UID (Credentials s'))]))
      /\ Forall is_delete dels
      /\ In s' (AvailableInstances (durable w)) /\ ID s' = instanceID
      /\ delete_database c (UID (Credentials s')) = Some e'
      /\ (NoDup (map ID (AvailableInstances (durable w))) -> e' = e).
Proof.
  intros c instanceID p w s e Hload Hin Hs He.
  destruct (destroy_loop_err c instanceID (AvailableInstances (durable w)) [] false
              (mkWorld (durable w) (events w ++ [EvLoad])) s e Hin Hs He)
    as (e' & s' & dels & Heq & Hin' & Hs' & He' & Hdel).
  exists e', s', dels; repeat split; auto.
  - unfold Destroy, Load, emit, bind, ret; cbn.
    rewrite Hload; cbn; rewrite Heq; cbn.
    rewrite <- app_assoc; reflexivity.
  - intros Hnd.
    assert (s' = s) as -> by (apply (nodup_map_inj ID _ _ _ Hnd Hin' Hin); congruence).
    congruence.
Qed.

(** C5: when the state loads, a record carries the requested ID, and the
    deletions and the save succeed, [Destroy] deletes the records with the
    ID, saves the loaded records with those removed and the others in
    their original order, and returns nil. *)
Theorem destroy_removes_record :
  forall c instanceID p w s,
    load_fails p = None -> save_fails p = None ->
    In s (AvailableInstances (durable w)) -> ID s = instanceID ->
    (forall s', In s' (AvailableInstances (durable w)) -> ID s' = instanceID ->
                delete_database c (UID (Credentials s')) = None) ->
    let st' := mkState (others instanceID (AvailableInstances (durable w))) in
    Destroy c instanceID p w =
      (None, mkWorld st'
               (events w ++ EvLoad
                  :: map (fun s => EvDeleteDatabase (UID (Credentials s)))
                         (with_id instanceID (AvailableInstances (durable w)))
                  ++ [EvSave st'])).
Proof.
  intros c instanceID p w s Hload Hsave Hin Hs Hdel st'.
  assert (Hex : instance_exists instanceID (AvailableInstances (durable w)) = true)
    by (apply instance_exists_spec; exists s; auto).
  unfold Destroy, Load, Save, emit, bind, ret; cbn.
  rewrite Hload; cbn.
  rewrite destroy_loop_ok by exact Hdel; cbn.
  rewrite Hex; cbn; rewrite Hsave.
  rewrite <- !app_assoc; reflexivity.
Qed.

Lemma no_match_with_id : forall instanceID l,
  (forall s, In s l -> ID s <> instanceID) -> with_id instanceID l = [].
Proof.
  intros instanceID l H; unfold with_id.
  destruct (filter _ l) as [|y ys] eqn:F; [reflexivity|].
  assert (Hy : In y (filter (fun s => String.eqb (ID s) instanceID) l))
    by (rewrite F; left; reflexivity).
  apply filter_In in Hy as [Hy Hye]; apply String.eqb_eq in Hye.
  exfalso; exact (H y Hy Hye).
Qed.

(** A run of [Destroy] in which every deletion succeeds. *)
Lemma destroy_deletes_ok_run : forall c instanceID p w,
  load_fails p = None ->
  instance_exists instanceID (AvailableInstances (durable w)) = true ->
  (forall s, In s (AvailableInstances (durable w)) -> ID s = instanceID ->
             delete_database c (UID (Credentials s)) = None) ->
  let st' := mkState (others instanceID (AvailableInstances (durable w))) in
  Destroy c instanceID p w =
    (save_fails p,
     mkWorld (match save_fails p with Some _ => durable w | None => st' end)
       (events w ++ EvLoad
          :: map (fun s => EvDeleteDatabase (UID (Credentials s)))
                 (with_id instanceID (AvailableInstances (durable w)))
          ++ [EvSave st'])).
Proof.
  intros c instanceID p w Hload Hex Hdel st'.
  unfold Destroy, Load, Save, emit, bind, ret; cbn.
  rewrite Hload; cbn.
  rewrite destroy_loop_ok by exact Hdel; cbn.
  rewrite Hex; cbn.
  destruct (save_fails p); cbn; rewrite <- !app_assoc; reflexivity.
Qed.

(** C6 (as amended): when the state loads and no record carries the ID,
    [Destroy] returns the "instance does not exist" error after loading
    only, without calling [Save].  [Destroy] returns nil only when at least
    one record carried the ID, and then it has deleted every record with
    the ID (one [DeleteDatabase] call per record, in order) and saved the
    loaded records without them; exactly one record carried the ID when
    the loaded IDs are pairwise distinct. *)
Theorem destroy_requires_match :
  forall c instanceID p w,
    load_fails p = None ->
    ((forall s, In s (AvailableInstances (durable w)) -> ID s <> instanceID) ->
     Destroy c instanceID p w =
       (Some ErrInstanceDoesNotExist, mkWorld (durable w) (events w ++ [EvLoad])))
    /\ (fst (Destroy c instanceID p w) = None ->
        let st' := mkState (others instanceID (AvailableInstances (durable w))) in
        1 <= List.length (with_id instanceID (AvailableInstances (durable w)))
        /\ Destroy c instanceID p w =
             (None, mkWorld st'
                      (events w ++ EvLoad
                         :: map (fun s => EvDeleteDatabase (UID (Credentials s)))
                                (with_id instanceID (AvailableInstances (durable w)))
                         ++ [EvSave st']))
        /\ (NoDup (map ID (AvailableInstances (durable w))) ->
            List.length (with_id instanceID (AvailableInstances (durable w))) = 1)).
Proof.
  intros c instanceID p w Hload; split.
  - intros Hnone.
    unfold Destroy, Load, emit, bind, ret; cbn.
    rewrite Hload; cbn.
    rewrite destroy_loop_ok by (intros s Hs Hid; exfalso; exact (Hnone s Hs Hid)).
    rewrite (instance_exists_false _ _ Hnone), (no_match_with_id _ _ Hnone); cbn.
    rewrite app_nil_r; reflexivity.
  - intros Hnil st'.
    assert (Hdel : forall s, In s (AvailableInstances (durable w)) -> ID s = instanceID ->
                             delete_database c (UID (Credentials s)) = None).
    { intros s Hin Hs.
      destruct (delete_database c (UID (Credentials s))) as [e|] eqn:E; [|reflexivity].
      exfalso.
      destruct (destroy_loop_err c instanceID (AvailableInstances (durable w)) [] false
                  (mkWorld (durable w) (events w ++ [EvLoad])) s e Hin Hs E)
        as (e' & s' & dels & Heq & _).
      revert Hnil; unfold Destroy, Load, emit, bind, ret; cbn.
      rewrite Hload; cbn; rewrite Heq; cbn; discriminate. }
    destruct (instance_exists instanceID (AvailableInstances (durable w))) eqn:Hex.
    2: { exfalso; revert Hnil; unfold Destroy, Load, emit, bind, ret; cbn.
         rewrite Hload; cbn; rewrite destroy_loop_ok by exact Hdel; cbn.
         rewrite Hex; cbn; discriminate. }
    pose proof (destroy_deletes_ok_run c instanceID p w Hload Hex Hdel) as Hrun.
    cbv zeta in Hrun.
    destruct (save_fails p) eqn:Hsave; [rewrite Hrun in Hnil; discriminate|].
    apply instance_exists_spec in Hex as (s & Hin & Hs).
    split; [|split].
    + assert (Hw : In s (with_id instanceID (AvailableInstances (durable w))))
        by (apply filter_In; split; [exact Hin | apply String.eqb_eq; exact Hs]).
      destruct (with_id _ _); [destruct Hw | simpl; lia].
    + exact Hrun.
    + intros Hnd; exact (with_id_unique _ _ s Hnd Hin Hs).
Qed.

(** ** The ID-uniqueness invariant *)

Lemma saved_states_app : forall l1 l2,
  saved_states (l1 ++ l2) = saved_states l1 ++ saved_states l2.
Proof.
  intros l1 l2; induction l1 as [|e rest IH]; [reflexivity|].
  destruct e; simpl; rewrite ?IH; reflexivity.
Qed.

Lemma saved_states_deletes : forall dels,
  Forall is_delete dels -> saved_states dels = [].
Proof.
  intros dels H; induction H as [|e rest [uid ->] _ IH]; simpl; auto.
Qed.

Lemma lock_free_deletes : forall dels,
  Forall is_delete dels -> lock_free dels = true.
Proof.
  intros dels H; induction H as [|e rest [uid ->] _ IH]; simpl; auto.
Qed.

(** Every run of [Create] only ever saves the loaded records followed by
    one new record, and only when no loaded record had the ID. *)
Lemma create_run : forall c timeout instanceID settings p w,
  exists r st ev,
    Create c timeout instanceID settings p w = (r, mkWorld st (events w ++ ev))
    /\ locked_section ev = true
    /\ forall st', In st' (saved_states ev) ->
         instance_exists instanceID (AvailableInstances (durable w)) = false
         /\ exists cred, st' = mkState (AvailableInstances (durable w)
                                         ++ [mkServiceInstance instanceID cred]).
Proof.
  intros c timeout instanceID settings p w.
  unfold Create, lock, unlock, Load, Save, createDatabase, apiCreateDatabase,
    emit, bind, ret; cbn.
  destruct (load_fails p); cbn.
  { rewrite <- !app_assoc; do 3 eexists; split; [reflexivity|split; [reflexivity|]].
    intros st' []. }
  destruct (instance_exists instanceID (AvailableInstances (durable w))) eqn:Hex; cbn.
  { rewrite <- !app_assoc; do 3 eexists; split; [reflexivity|split; [reflexivity|]].
    intros st' []. }
  destruct (create_database c settings) as [ch|e]; cbn.
  2: { rewrite <- !app_assoc; do 3 eexists; split; [reflexivity|split; [reflexivity|]].
       intros st' []. }
  destruct (select_completion timeout ch) as [cred|e]; cbn.
  2: { rewrite <- !app_assoc; do 3 eexists; split; [reflexivity|split; [reflexivity|]].
       intros st' []. }
  destruct (save_fails p); cbn;
    rewrite <- !app_assoc; do 3 eexists; (split; [reflexivity|]); (split; [reflexivity|]);
    intros st' [<-|[]]; split; eauto.
Qed.

(** Every run of [Destroy] only ever saves the loaded records without the
    ones carrying the ID. *)
Lemma destroy_run : forall c instanceID p w,
  exists r st ev,
    Destroy c instanceID p w = (r, mkWorld st (events w ++ ev))
    /\ lock_free ev = true
    /\ forall st', In st' (saved_states ev) ->
         st' = mkState (others instanceID (AvailableInstances (durable w))).
Proof.
  intros c instanceID p w.
  unfold Destroy, Load, Save, emit, bind, ret; cbn.
  destruct (load_fails p); cbn.
  { do 3 eexists; split; [reflexivity|split; [reflexivity|]]; intros st' []. }
  destruct (destroy_loop_frame c instanceID (AvailableInstances (durable w)) [] false
              (mkWorld (durable w) (events w ++ [EvLoad])))
    as (r & dels & Heq & Hdel & Hok).
  rewrite Heq; cbn.
  destruct r as [[left' rm]|err]; cbn.
  2: { rewrite <- !app_assoc; do 3 eexists; split; [reflexivity|split; [simpl; rewrite lock_free_deletes by exact Hdel; reflexivity|]].
       intros st'; simpl; rewrite saved_states_deletes by exact Hdel; intros []. }
  destruct (Hok left' rm eq_refl) as [-> _].
  destruct rm; cbn.
  - destruct (save_fails p); cbn;
      rewrite <- !app_assoc; do 3 eexists; (split; [reflexivity|]); (split; [unfold lock_free; simpl; rewrite forallb_app; fold (lock_free dels); rewrite lock_free_deletes by exact Hdel; reflexivity|]);
      intros st'; simpl; rewrite saved_states_app, saved_states_deletes by exact Hdel;
      intros [<-|[]]; reflexivity.
  - rewrite <- !app_assoc; do 3 eexists; split; [reflexivity|split; [simpl; rewrite lock_free_deletes by exact Hdel; reflexivity|]].
    intros st'; simpl; rewrite saved_states_deletes by exact Hdel; intros [].
Qed.

Lemma nodup_ids_others : forall instanceID l,
  NoDup (map ID l) -> NoDup (map ID (others instanceID l)).
Proof.
  intros instanceID l; induction l as [|x rest IH]; intros Hnd; simpl; auto.
  simpl in Hnd; inversion Hnd as [|? ? Hnotin Hnd']; subst.
  unfold others; simpl; destruct (negb _); simpl; [|exact (IH Hnd')].
  constructor; [|exact (IH Hnd')].
  intros Hin; apply Hnotin.
  apply in_map_iff in Hin as (y & Hy & Hiny).
  apply filter_In in Hiny as [Hiny _].
  rewrite <- Hy; apply in_map; exact Hiny.
Qed.

Lemma nodup_ids_append : forall l s,
  NoDup (map ID l) -> instance_exists (ID s) l = false ->
  NoDup (map ID (l ++ [s])).
Proof.
  intros l s Hnd Hex; rewrite map_app; simpl.
  apply NoDup_app; [exact Hnd | constructor; [intros []|constructor] |].
  intros a Ha [<-|[]].
  apply in_map_iff in Ha as (y & Hy & Hiny).
  assert (instance_exists (ID s) l = true)
    by (apply instance_exists_spec; exists y; auto).
  congruence.
Qed.

(** C7: from a loaded state whose records have pairwise-distinct IDs,
    every state [Create] or [Destroy] hands to [Save] has pairwise-distinct
    IDs too; [Update] and [InstanceExists] never call [Save]. *)
Theorem saves_preserve_unique_ids :
  forall c timeout instanceID settings params p w,
    NoDup (map ID (AvailableInstances (durable w))) ->
    (forall st, In st (saved_states (run_events (Create c timeout instanceID settings p) w)) ->
                NoDup (map ID (AvailableInstances st)))
    /\ (forall st, In st (saved_states (run_events (Destroy c instanceID p) w)) ->
                   NoDup (map ID (AvailableInstances st)))
    /\ saved_states (run_events (Update c instanceID params p) w) = []
    /\ saved_states (run_events (InstanceExists instanceID p) w) = [].
Proof.
  intros c timeout instanceID settings params p w Hnd.
  split; [|split; [|split]].
  - destruct (create_run c timeout instanceID settings p w) as (r & st & ev & H & _ & Hs).
    rewrite (run_events_extends _ _ _ _ _ H).
    intros st' Hin; destruct (Hs st' Hin) as [Hex [cred ->]]; simpl.
    apply nodup_ids_append; [exact Hnd | exact Hex].
  - destruct (destroy_run c instanceID p w) as (r & st & ev & H & _ & Hs).
    rewrite (run_events_extends _ _ _ _ _ H).
    intros st' Hin; rewrite (Hs st' Hin); simpl.
    apply nodup_ids_others; exact Hnd.
  - destruct (update_run c instanceID params p w) as (ev & H & Hs & _).
    rewrite (run_events_extends _ _ _ _ _ H); exact Hs.
  - unfold run_events; simpl; rewrite skipn_all; reflexivity.
Qed.

(** ** Serialisation of [Create] by the mutex *)

Lemma lock_free_rev : forall l, lock_free (rev l) = lock_free l.
Proof.
  intros l; unfold lock_free.
  destruct (forallb _ l) eqn:F.
  - apply forallb_forall; intros e He; apply in_rev in He.
    rewrite forallb_forall in F; exact (F e He).
  - destruct (forallb _ (rev l)) eqn:G; [|reflexivity].
    rewrite <- F; symmetry; apply forallb_forall; intros e He.
    rewrite forallb_forall in G; apply G; apply in_rev; rewrite rev_involutive; exact He.
Qed.

Lemma locked_section_spec : forall l,
  locked_section l = true ->
  exists mid, l = EvLock :: mid ++ [EvUnlock] /\ lock_free mid = true.
Proof.
  intros [|e rest] H; [discriminate|].
  destruct e; try discriminate; simpl in H.
  destruct (rev rest) as [|e rmid] eqn:R; [discriminate|].
  destruct e; try discriminate.
  exists (rev rmid); split.
  - rewrite <- (rev_involutive rest), R; reflexivity.
  - rewrite lock_free_rev; exact H.
Qed.


Lemma holds_lock_free : forall l b,
  lock_free l = true -> fold_left holds_after l b = b.
Proof.
  intros l; induction l as [|e rest IH]; intros b H; [reflexivity|].
  simpl in H |- *; apply andb_true_iff in H as [He Hrest].
  destruct e; try discriminate; apply IH; exact Hrest.
Qed.

Lemma lock_free_firstn : forall n l,
  lock_free l = true -> lock_free (firstn n l) = true.
Proof.
  intros n; induction n as [|n IH]; intros [|e rest] H; try reflexivity.
  simpl in H |- *; apply andb_true_iff in H as [He Hrest].
  rewrite He; exact (IH rest Hrest).
Qed.

Lemma lock_free_no_lock : forall l e,
  lock_free l = true -> In e l -> is_lock_event e = false.
Proof.
  intros l e H Hin; unfold lock_free in H; rewrite forallb_forall in H.
  apply negb_true_iff; exact (H e Hin).
Qed.

(** The calls of [Create] form one locked section; the other operations
    never touch the mutex. *)
Lemma call_events_shape : forall k,
  (is_create k = true /\ locked_section (call_events k) = true)
  \/ (is_create k = false /\ lock_free (call_events k) = true).
Proof.
  intros [d c timeout instanceID settings p w | d c instanceID params p w
         | d c instanceID p w | d instanceID p w]; simpl.
  - left; split; [reflexivity|].
    destruct (create_run c timeout instanceID settings p w) as (r & st & ev & H & Hl & _).
    rewrite (run_events_extends _ _ _ _ _ H); exact Hl.
  - right; split; [reflexivity|].
    destruct (update_run c instanceID params p w) as (ev & H & _ & Hl).
    rewrite (run_events_extends _ _ _ _ _ H); exact Hl.
  - right; split; [reflexivity|].
    destruct (destroy_run c instanceID p w) as (r & st & ev & H & Hl & _).
    rewrite (run_events_extends _ _ _ _ _ H); exact Hl.
  - right; split; [reflexivity|].
    unfold run_events; simpl; rewrite skipn_all; reflexivity.
Qed.

Lemma holds_locked_section : forall mid n,
  lock_free mid = true ->
  holds (firstn n (EvLock :: mid ++ [EvUnlock])) =
    (Nat.ltb 0 n && Nat.ltb n (List.length (EvLock :: mid ++ [EvUnlock])))%bool.
Proof.
  intros mid [|n] H; [reflexivity|].
  unfold holds; simpl firstn; simpl fold_left.
  cbn [Datatypes.length]; rewrite firstn_app, length_app; simpl Datatypes.length.
  destruct (Nat.leb_spec n (List.length mid)) as [Hle|Hgt].
  - replace (n - List.length mid) with 0 by lia; rewrite app_nil_r.
    rewrite holds_lock_free by (apply lock_free_firstn; exact H).
    symmetry; apply andb_true_iff; split; apply Nat.ltb_lt; lia.
  - replace (n - List.length mid) with (S (n - List.length mid - 1)) by lia.
    rewrite firstn_all2 by lia; simpl firstn; rewrite firstn_nil.
    rewrite fold_left_app, (holds_lock_free mid) by exact H; simpl.
    symmetry; apply Nat.ltb_ge; lia.
Qed.

Lemma holds_lock_free_prog : forall prog n,
  lock_free prog = true -> holds (firstn n prog) = false.
Proof.
  intros prog n H; unfold holds.
  apply holds_lock_free, lock_free_firstn, H.
Qed.

Lemma firstn_S_nth : forall {A} (l : list A) n e,
  nth_error l n = Some e -> firstn (S n) l = firstn n l ++ [e].
Proof.
  intros A l; induction l as [|x rest IH]; intros [|n] e H; try discriminate.
  - injection H as ->; reflexivity.
  - simpl in H.
    change (x :: firstn (S n) rest = (x :: firstn n rest) ++ [e]).
    rewrite (IH n e H); reflexivity.
Qed.

Lemma holds_firstn_S : forall prog pc e,
  nth_error prog pc = Some e ->
  holds (firstn (S pc) prog) = holds_after (holds (firstn pc prog)) e.
Proof.
  intros prog pc e H; unfold holds; rewrite (firstn_S_nth _ _ _ H), fold_left_app.
  reflexivity.
Qed.

(** Each call takes the mutex only when it does not hold it, and releases
    it only when it holds it. *)
Lemma call_events_bracketed : forall k pc,
  (nth_error (call_events k) pc = Some EvLock -> holds (firstn pc (call_events k)) = false)
  /\ (nth_error (call_events k) pc = Some EvUnlock -> holds (firstn pc (call_events k)) = true).
Proof.
  intros k pc.
  destruct (call_events_shape k) as [[_ Hs]|[_ Hl]].
  - apply locked_section_spec in Hs as (mid & Hprog & Hmid).
    rewrite Hprog, (holds_locked_section mid pc Hmid); split; intros Hn.
    + destruct pc as [|n]; [reflexivity|exfalso].
      simpl in Hn; apply nth_error_In, in_app_or in Hn as [Hin|[Hin|[]]];
        [|discriminate].
      pose proof (lock_free_no_lock _ _ Hmid Hin); discriminate.
    + destruct pc as [|n]; [discriminate|].
      assert (Hlt : S n < List.length (EvLock :: mid ++ [EvUnlock])).
      { apply nth_error_Some; rewrite Hn; discriminate. }
      apply andb_true_iff; split; apply Nat.ltb_lt; lia.
  - split; intros Hn; exfalso; apply nth_error_In in Hn;
      pose proof (lock_free_no_lock _ _ Hl Hn); discriminate.
Qed.

Lemma count_replace : forall (f : Thread -> bool) ts i t t',
  nth_error ts i = Some t ->
  List.length (filter f (replace_nth i t' ts)) + (if f t then 1 else 0) =
  List.length (filter f ts) + (if f t' then 1 else 0).
Proof.
  intros f ts; induction ts as [|x rest IH]; intros [|i] t t' H; try discriminate.
  - injection H as ->; simpl.
    destruct (f t), (f t'); simpl; lia.
  - simpl in H |- *; specialize (IH i t t' H).
    destruct (f x); simpl; lia.
Qed.

Lemma map_replace : forall {B} (g : Thread -> B) ts i t t',
  nth_error ts i = Some t -> g t' = g t ->
  map g (replace_nth i t' ts) = map g ts.
Proof.
  intros B g ts; induction ts as [|x rest IH]; intros [|i] t t' H Hg; try discriminate.
  - injection H as ->; simpl; rewrite Hg; reflexivity.
  - simpl in H |- *; rewrite (IH i t t' H Hg); reflexivity.
Qed.

Lemma thread_program : forall calls (ts : list Thread) i t,
  map (fun t => (manager t, prog t)) ts = map (fun k => (call_manager k, call_events k)) calls ->
  nth_error ts i = Some t ->
  exists k, nth_error calls i = Some k /\ call_manager k = manager t
            /\ call_events k = prog t.
Proof.
  intros calls ts i t Hmap Hnth.
  assert (H : nth_error (map (fun t => (manager t, prog t)) ts) i = Some (manager t, prog t))
    by (rewrite nth_error_map, Hnth; reflexivity).
  rewrite Hmap, nth_error_map in H.
  destruct (nth_error calls i) as [k|]; [|discriminate].
  exists k; injection H as <- <-; auto.
Qed.

Lemma inside_on_unfold : forall d t, inside_on d t = (Nat.eqb (manager t) d && inside t)%bool.
Proof. reflexivity. Qed.

Lemma inside_advance : forall t e,
  nth_error (prog t) (pc t) = Some e -> inside (advance t) = holds_after (inside t) e.
Proof. intros t e He; unfold inside, advance; cbn [pc prog]; apply holds_firstn_S, He. Qed.

Lemma mutex_inv_init : forall calls, mutex_inv calls (init calls).
Proof.
  intros calls; unfold mutex_inv, init; cbn [threads mutex_locked]; split.
  - rewrite map_map; reflexivity.
  - intros d; unfold count_inside_on; induction calls as [|k rest IH]; [reflexivity|].
    cbn [map filter]; rewrite inside_on_unfold; unfold inside; cbn [pc firstn holds].
    unfold holds; cbn [fold_left]; rewrite andb_false_r; exact IH.
Qed.

Lemma mutex_inv_step : forall calls cfg cfg',
  mutex_inv calls cfg -> step cfg cfg' -> mutex_inv calls cfg'.
Proof.
  intros calls cfg cfg' [Hmap Hcnt] Hstep.
  destruct Hstep as [cfg i t e locked' Hnth He Hmutex].
  destruct (thread_program calls _ i t Hmap Hnth) as (k & Hk & Hmgr & Hprog).
  pose proof (call_events_bracketed k (pc t)) as [Hlock Hunlock]; rewrite Hprog in Hlock, Hunlock.
  unfold mutex_inv; cbn [threads mutex_locked].
  split; [rewrite (map_replace (fun t => (manager t, prog t)) _ i t (advance t) Hnth eq_refl); exact Hmap|].
  intros d; specialize (Hcnt d).
  pose proof (count_replace (inside_on d) _ i t (advance t) Hnth) as Hcr.
  rewrite !inside_on_unfold, (inside_advance t e He) in Hcr.
  change (manager (advance t)) with (manager t) in Hcr.
  unfold count_inside_on in *; unfold set_locked.
  destruct (Nat.eqb_spec d (manager t)) as [->|Hne].
  - rewrite Nat.eqb_refl in Hcr; cbn [andb] in Hcr.
    unfold inside in Hcr.
    destruct e; cbn [mutex_step holds_after] in Hmutex, Hcr.
    1: { destruct (mutex_locked cfg (manager t)); [discriminate|]; injection Hmutex as <-.
         rewrite (Hlock He) in Hcr; lia. }
    1: { injection Hmutex as <-.
         rewrite (Hunlock He) in Hcr; destruct (mutex_locked cfg (manager t)); lia. }
    all: injection Hmutex as <-; destruct (holds (firstn (pc t) (prog t))); lia.
  - rewrite (proj2 (Nat.eqb_neq _ _) (not_eq_sym Hne)) in Hcr; cbn [andb] in Hcr.
    lia.
Qed.

Lemma mutex_inv_steps : forall calls cfg cfg',
  steps cfg cfg' -> mutex_inv calls cfg -> mutex_inv calls cfg'.
Proof.
  intros calls cfg cfg' H; induction H as [|c1 c2 c3 H12 _ IH]; auto.
  intros Hinv; apply IH; exact (mutex_inv_step _ _ _ Hinv H12).
Qed.

Lemma steps_snoc : forall cfg1 cfg2 cfg3,
  steps cfg1 cfg2 -> step cfg2 cfg3 -> steps cfg1 cfg3.
Proof.
  intros cfg1 cfg2 cfg3 H; induction H as [cfg|c1 c2 c3 H12 _ IH]; intros H3.
  - apply steps_trans with cfg3; [exact H3 | apply steps_refl].
  - apply steps_trans with c2; [exact H12 | exact (IH H3)].
Qed.

(** C8 (as amended): creation is serialised per manager.  Every run of
    [Create] takes its manager's mutex as its first call and releases it
    as its last, on every path, with the load, the request to the cluster,
    the wait and the save in between; [Update], [Destroy] and
    [InstanceExists] never touch a mutex.  In every interleaving of
    concurrent calls, at most one thread of each manager is inside that
    manager's mutex, and a thread is inside exactly when it is a [Create]
    that has started and not yet returned. *)
Theorem create_serialized : forall calls cfg,
  steps (init calls) cfg ->
  (forall k, is_create k = true ->
     exists mid, call_events k = EvLock :: mid ++ [EvUnlock] /\ lock_free mid = true)
  /\ (forall k, is_create k = false -> lock_free (call_events k) = true)
  /\ (forall d, count_inside_on d (threads cfg) <= 1)
  /\ (forall i k t,
        nth_error calls i = Some k -> nth_error (threads cfg) i = Some t ->
        manager t = call_manager k
        /\ (inside t = true <->
            is_create k = true /\ 0 < pc t < List.length (prog t))).
Proof.
  intros calls cfg Hsteps.
  destruct (mutex_inv_steps calls _ _ Hsteps (mutex_inv_init calls)) as [Hmap Hcnt].
  split; [|split; [|split]].
  - intros k Hk; destruct (call_events_shape k) as [[_ Hs]|[Hc _]];
      [apply locked_section_spec; exact Hs | congruence].
  - intros k Hk; destruct (call_events_shape k) as [[Hc _]|[_ Hl]];
      [congruence | exact Hl].
  - intros d; rewrite Hcnt; destruct (mutex_locked cfg d); lia.
  - intros i k t Hk Hnth.
    destruct (thread_program calls _ i t Hmap Hnth) as (k' & Hk' & Hmgr & Hprog).
    rewrite Hk in Hk'; injection Hk' as <-.
    split; [symmetry; exact Hmgr|].
    unfold inside; rewrite <- Hprog.
    destruct (call_events_shape k) as [[Hc Hs]|[Hc Hl]].
    + apply locked_section_spec in Hs as (mid & Hp & Hmid).
      rewrite Hp, (holds_locked_section mid (pc t) Hmid), Hc.
      rewrite andb_true_iff, !Nat.ltb_lt; tauto.
    + rewrite (holds_lock_free_prog _ (pc t) Hl), Hc.
      split; [discriminate | intros [H _]; discriminate].
Qed.

(** ** Runs on concrete inputs *)

(** C1 on the scenario of the spec: from an empty state, a creation of
    ["x"] whose credentials [{UID: 7}] arrive in time leaves the state
    [[{ID: "x", Credentials: {UID: 7}}]] and returns nil. *)
Lemma create_appends_record_witness :
  fst (Create (client_delivering (cred 7)) WaitingForDatabaseTimeout_default
         "x" [] persister_ok (world_of [])) = None
  /\ durable (snd (Create (client_delivering (cred 7)) WaitingForDatabaseTimeout_default
                     "x" [] persister_ok (world_of [])))
     = mkState [mkServiceInstance "x" (cred 7)].
Proof.
  pose proof (create_appends_record (client_delivering (cred 7))
                WaitingForDatabaseTimeout_default "x" [] persister_ok (world_of [])
                1000000000%N (cred 7) eq_refl (fun s H => match H with end) eq_refl
                ltac:(unfold WaitingForDatabaseTimeout_default; lia)
           ltac:(unfold WaitingForDatabaseTimeout_default, Second; lia)) as H.
  cbv zeta in H; rewrite H; split; reflexivity.
Defined.

(** C1: with [WaitingForDatabaseTimeout] set to 9223372037, the
    [time.Duration] of the timer wraps around to a negative value, the
    timer fires at once, and credentials arriving after one second lose:
    [Create] returns the timeout error. *)
Lemma create_appends_record_counterexample :
  ~ (forall c timeout instanceID settings p w after cred,
       load_fails p = None -> save_fails p = None ->
       (forall s, In s (AvailableInstances (durable w)) -> ID s <> instanceID) ->
       create_database c settings = Ok (Arrives after cred) ->
       (Z.of_N after < Second * timeout)%Z ->
       fst (Create c timeout instanceID settings p w) = None).
Proof.
  intros H.
  specialize (H (client_delivering (cred 7)) 9223372037%Z "x" [] persister_ok (world_of [])
                1000000000%N (cred 7) eq_refl eq_refl (fun s H => match H with end) eq_refl
                ltac:(unfold Second; lia)).
  vm_compute in H; discriminate H.
Defined.

(** C2 on the scenario of the spec: creating ["x"] twice from an empty
    state, the second call fails with [ErrInstanceExists] and the state
    holds one record with that ID. *)
Lemma create_rejects_existing_witness :
  let w1 := snd (Create (client_delivering (cred 7)) WaitingForDatabaseTimeout_default
                   "x" [] persister_ok (world_of [])) in
  fst (Create (client_delivering (cred 8)) WaitingForDatabaseTimeout_default
         "x" [] persister_ok w1) = Some ErrInstanceExists
  /\ List.length (with_id "x" (AvailableInstances (durable
       (snd (Create (client_delivering (cred 8)) WaitingForDatabaseTimeout_default
               "x" [] persister_ok w1))))) = 1.
Proof.
  intros w1.
  destruct (create_rejects_existing (client_delivering (cred 8))
              WaitingForDatabaseTimeout_default "x" [] persister_ok w1
              (mkServiceInstance "x" (cred 7)) eq_refl
              (or_introl eq_refl) eq_refl) as [Heq Hcount].
  rewrite Heq; split; [reflexivity|].
  apply Hcount; simpl; repeat constructor; intros [].
Defined.



(** C4 on a one-record state whose deletion fails: the client's error,
    and the record is still there. *)
Lemma destroy_delete_failure_keeps_state_witness :
  fst (Destroy client_delete_failing "a" persister_ok (world_of [record_a]))
    = Some (ClientErr 1)
  /\ durable (snd (Destroy client_delete_failing "a" persister_ok (world_of [record_a])))
    = mkState [record_a].
Proof.
  destruct (destroy_delete_failure_keeps_state client_delete_failing "a" persister_ok
              (world_of [record_a]) record_a (ClientErr 1) eq_refl
              (or_introl eq_refl) eq_refl eq_refl)
    as (e' & s' & dels & Heq & _ & _ & _ & _ & Hnd).
  rewrite Heq; simpl; split; [|reflexivity].
  f_equal; apply Hnd; simpl; repeat constructor; intros [].
Defined.

(** C5 on the scenario of the spec: destroying ["a"] from
    [[{ID: "a", Credentials: {UID: 1}}]] leaves the empty state and
    returns nil. *)
Lemma destroy_removes_record_witness :
  fst (Destroy (client_delivering (cred 7)) "a" persister_ok (world_of [record_a])) = None
  /\ durable (snd (Destroy (client_delivering (cred 7)) "a" persister_ok
                     (world_of [record_a]))) = mkState [].
Proof.
  pose proof (destroy_removes_record (client_delivering (cred 7)) "a" persister_ok
                (world_of [record_a]) record_a eq_refl eq_refl
                (or_introl eq_refl) eq_refl (fun _ _ _ => eq_refl)) as H.
  cbv zeta in H; rewrite H; split; reflexivity.
Defined.

(** C6: with two records carrying ["a"] and deletions that succeed,
    [Destroy] returns nil although two records matched. *)
Lemma destroy_duplicate_ids_counterexample :
  ~ (forall c instanceID p w,
       load_fails p = None ->
       fst (Destroy c instanceID p w) = None ->
       List.length (with_id instanceID (AvailableInstances (durable w))) = 1).
Proof.
  intros H.
  specialize (H (client_delivering (cred 7)) "a" persister_ok
                (world_of [record_a; mkServiceInstance "a" (cred 2)]) eq_refl eq_refl).
  discriminate H.
Defined.

(** C6 (as amended): destroying ["a"] fails with the "instance does not
    exist" error after the load only on the empty state, and from
    [[a; b]] deletes the database of ["a"] and saves [[b]]. *)
Lemma destroy_requires_match_witness :
  Destroy (client_delivering (cred 7)) "a" persister_ok (world_of [])
  = (Some ErrInstanceDoesNotExist, mkWorld (mkState []) [EvLoad])
  /\ Destroy (client_delivering (cred 7)) "a" persister_ok (world_of [record_a; record_b])
  = (None, mkWorld (mkState [record_b])
             [EvLoad; EvDeleteDatabase 1; EvSave (mkState [record_b])]).
Proof.
  split.
  - exact (proj1 (destroy_requires_match (client_delivering (cred 7)) "a" persister_ok
                    (world_of []) eq_refl) (fun s H => match H with end)).
  - pose proof (proj2 (destroy_requires_match (client_delivering (cred 7)) "a" persister_ok
                         (world_of [record_a; record_b]) eq_refl)
                  ltac:(vm_compute; reflexivity)) as H.
    cbv zeta in H; destruct H as (_ & H & _); rewrite H; vm_compute; reflexivity.
Defined.

(** C7 on a one-record state: creating ["x"] saves distinct IDs. *)
Lemma saves_preserve_unique_ids_witness :
  Forall (fun st => NoDup (map ID (AvailableInstances st)))
    (saved_states (run_events
                     (Create (client_delivering (cred 7)) WaitingForDatabaseTimeout_default
                        "x" [] persister_ok) (world_of [record_a]))).
Proof.
  apply Forall_forall.
  exact (proj1 (saves_preserve_unique_ids (client_delivering (cred 7))
                  WaitingForDatabaseTimeout_default "x" [] [] persister_ok
                  (world_of [record_a]) ltac:(simpl; repeat constructor; intros []))).
Defined.

(** C8: two creations on two managers (as two calls of [NewDefault]
    build them) are both inside their locked sections at once. *)
Lemma create_serialized_counterexample :
  ~ (forall calls cfg, steps (init calls) cfg -> count_inside (threads cfg) <= 1).
Proof.
  intros H.
  assert (Hs : exists cfg, steps (init two_manager_creates) cfg
                           /\ count_inside (threads cfg) = 2).
  { eexists; split.
    - eapply steps_snoc.
      { eapply steps_snoc; [apply steps_refl|].
        eapply (step_call _ 0 _ EvLock true);
          [reflexivity | vm_compute; reflexivity | vm_compute; reflexivity]. }
      eapply (step_call _ 1 _ EvLock true);
        [reflexivity | vm_compute; reflexivity | vm_compute; reflexivity].
    - vm_compute; reflexivity. }
  destruct Hs as (cfg & Hs & H2); specialize (H _ _ Hs); lia.
Defined.

(** C8 (as amended) on two concurrent creations on one manager, after
    the first has taken the mutex. *)
Lemma create_serialized_witness :
  exists cfg, steps (init two_creates) cfg
              /\ count_inside (threads cfg) = 1 /\ count_inside_on 0 (threads cfg) <= 1.
Proof.
  assert (Hs : exists cfg, steps (init two_creates) cfg /\ count_inside (threads cfg) = 1).
  { eexists; split.
    - eapply steps_snoc; [apply steps_refl|].
      eapply (step_call _ 0 _ EvLock true);
        [reflexivity | vm_compute; reflexivity | vm_compute; reflexivity].
    - vm_compute; reflexivity. }
  destruct Hs as (cfg & Hs & H1); exists cfg; split; [exact Hs | split; [exact H1|]].
  exact (proj1 (proj2 (proj2 (create_serialized two_creates cfg Hs))) 0).
Defined.

(** ** Further properties of the coordinator *)

Lemma create_delivered_run :
  forall c timeout instanceID settings p w after cr,
    load_fails p = None ->
    instance_exists instanceID (AvailableInstances (durable w)) = false ->
    create_database c settings = Ok (Arrives after cr) ->
    (timeout <= 9223372036)%Z -> (Z.of_N after < Second * timeout)%Z ->
    let st' := mkState (AvailableInstances (durable w)
                          ++ [mkServiceInstance instanceID cr]) in
    Create c timeout instanceID settings p w =
      (match save_fails p with Some _ => Some ErrFailedToSaveState | None => None end,
       mkWorld (match save_fails p with Some _ => durable w | None => st' end)
         (events w ++ [EvLock; EvLoad; EvCreateDatabase settings; EvReceive;
                       EvSave st'; EvUnlock])).
Proof.
  intros c timeout instanceID settings p w after cr Hload Hfresh Hcreate Hmax Hlt st'.
  unfold Create, lock, unlock, Load, Save, createDatabase, apiCreateDatabase,
    emit, bind, ret; cbn.
  rewrite Hload; cbn; rewrite Hfresh, Hcreate.
  rewrite (select_completion_in_time _ _ cr Hmax Hlt).
  destruct (save_fails p); cbn; repeat rewrite <- app_assoc; reflexivity.
Qed.

(** What a run of [Create] does to the durable state, whatever happens. *)
Lemma create_outcome : forall c timeout instanceID settings p w,
  (fst (Create c timeout instanceID settings p w) = None ->
   instance_exists instanceID (AvailableInstances (durable w)) = false
   /\ exists cr, durable (snd (Create c timeout instanceID settings p w)) =
                 mkState (AvailableInstances (durable w)
                            ++ [mkServiceInstance instanceID cr]))
  /\ (fst (Create c timeout instanceID settings p w) <> None ->
      durable (snd (Create c timeout instanceID settings p w)) = durable w).
Proof.
  intros c timeout instanceID settings p w.
  unfold Create, lock, unlock, Load, Save, createDatabase, apiCreateDatabase,
    emit, bind, ret; cbn.
  destruct (load_fails p); cbn; [split; [discriminate | reflexivity]|].
  destruct (instance_exists instanceID (AvailableInstances (durable w))) eqn:Hex;
    cbn; [split; [discriminate | reflexivity]|].
  destruct (create_database c settings) as [ch|e]; cbn;
    [|split; [discriminate | reflexivity]].
  destruct (select_completion timeout ch) as [cr|e]; cbn;
    [|split; [discriminate | reflexivity]].
  destruct (save_fails p); cbn; split; try discriminate; try reflexivity.
  - intros _; split; [reflexivity | exists cr; reflexivity].
  - intros H; exfalso; exact (H eq_refl).
Qed.

(** X1: when the cluster rejects the creation request, [Create] returns
    the client's error unchanged, never waits for credentials nor calls
    [Save], and leaves the durable state as it was. *)
Theorem create_client_rejection_passthrough :
  forall c timeout instanceID settings p w e,
    load_fails p = None ->
    (forall s, In s (AvailableInstances (durable w)) -> ID s <> instanceID) ->
    create_database c settings = Err e ->
    Create c timeout instanceID settings p w =
      (Some e, mkWorld (durable w)
                 (events w ++ [EvLock; EvLoad; EvCreateDatabase settings; EvUnlock])).
Proof.
  intros c timeout instanceID settings p w e Hload Hfresh Hcreate.
  apply instance_exists_false in Hfresh.
  unfold Create, lock, unlock, Load, createDatabase, apiCreateDatabase,
    emit, bind, ret; cbn.
  rewrite Hload; cbn; rewrite Hfresh, Hcreate; cbn.
  repeat rewrite <- app_assoc; reflexivity.
Qed.

(** X2: when the credentials arrive before a timeout of at most
    9223372036 seconds but [Save] fails, [Create] reports
    [ErrFailedToSaveState] (not the persister's own error) and the durable
    state does not record the database the cluster has created. *)
Theorem create_save_failure_reported :
  forall c timeout instanceID settings p w after cr e,
    load_fails p = None -> save_fails p = Some e ->
    (forall s, In s (AvailableInstances (durable w)) -> ID s <> instanceID) ->
    create_database c settings = Ok (Arrives after cr) ->
    (timeout <= 9223372036)%Z -> (Z.of_N after < Second * timeout)%Z ->
    fst (Create c timeout instanceID settings p w) = Some ErrFailedToSaveState
    /\ durable (snd (Create c timeout instanceID settings p w)) = durable w
    /\ In (EvCreateDatabase settings) (run_events (Create c timeout instanceID settings p) w).
Proof.
  intros c timeout instanceID settings p w after cr e Hload Hsave Hfresh Hcreate Hmax Hlt.
  apply instance_exists_false in Hfresh.
  pose proof (create_delivered_run c timeout instanceID settings p w after cr
                Hload Hfresh Hcreate Hmax Hlt) as H.
  cbv zeta in H; rewrite Hsave in H.
  rewrite (run_events_extends _ _ _ _ _ H), H.
  split; [reflexivity | split; [reflexivity | simpl; auto]].
Qed.

(** X3: [Create] changes the durable state only when it returns nil, and
    then only by appending one record with the requested ID to the loaded
    records, none of which had that ID. *)
Theorem create_changes_state_only_on_success :
  forall c timeout instanceID settings p w,
    (fst (Create c timeout instanceID settings p w) <> None ->
     durable (snd (Create c timeout instanceID settings p w)) = durable w)
    /\ (fst (Create c timeout instanceID settings p w) = None ->
        (forall s, In s (AvailableInstances (durable w)) -> ID s <> instanceID)
        /\ exists cr, AvailableInstances (durable (snd (Create c timeout instanceID settings p w)))
                      = AvailableInstances (durable w) ++ [mkServiceInstance instanceID cr]).
Proof.
  intros c timeout instanceID settings p w.
  destruct (create_outcome c timeout instanceID settings p w) as [Hok Hfail].
  split; [exact Hfail|].
  intros Hnone; destruct (Hok Hnone) as [Hex [cr Hst]].
  split.
  - intros s Hin Hs.
    assert (instance_exists instanceID (AvailableInstances (durable w)) = true)
      by (apply instance_exists_spec; exists s; auto).
    congruence.
  - exists cr; rewrite Hst; reflexivity.
Qed.

(** What a run of [Destroy] does to the durable state, whatever happens. *)
Lemma destroy_outcome : forall c instanceID p w,
  (fst (Destroy c instanceID p w) = None ->
   instance_exists instanceID (AvailableInstances (durable w)) = true
   /\ durable (snd (Destroy c instanceID p w)) =
      mkState (others instanceID (AvailableInstances (durable w))))
  /\ (fst (Destroy c instanceID p w) <> None ->
      durable (snd (Destroy c instanceID p w)) = durable w)
  /\ (load_fails p = None ->
      instance_exists instanceID (AvailableInstances (durable w)) = false ->
      Destroy c instanceID p w =
        (Some ErrInstanceDoesNotExist, mkWorld (durable w) (events w ++ [EvLoad]))).
Proof.
  intros c instanceID p w.
  split; [|split].
  - unfold Destroy, Load, Save, emit, bind, ret; cbn.
    destruct (load_fails p); cbn; [discriminate|].
    destruct (destroy_loop_frame c instanceID (AvailableInstances (durable w)) [] false
                (mkWorld (durable w) (events w ++ [EvLoad])))
      as (r & dels & Heq & _ & Hok).
    rewrite Heq; cbn.
    destruct r as [[left' rm]|err]; cbn; [|discriminate].
    destruct (Hok left' rm eq_refl) as [-> Hrm]; simpl in Hrm; subst rm.
    destruct (instance_exists _ _); cbn; [|discriminate].
    destruct (save_fails p); cbn; [discriminate|].
    intros _; split; reflexivity.
  - unfold Destroy, Load, Save, emit, bind, ret; cbn.
    destruct (load_fails p); cbn; [reflexivity|].
    destruct (destroy_loop_frame c instanceID (AvailableInstances (durable w)) [] false
                (mkWorld (durable w) (events w ++ [EvLoad])))
      as (r & dels & Heq & _ & _).
    rewrite Heq; cbn.
    destruct r as [[left' rm]|err]; cbn; [|reflexivity].
    destruct rm; cbn; [|reflexivity].
    destruct (save_fails p); cbn; [reflexivity|].
    intros H; exfalso; exact (H eq_refl).
  - intros Hload Hex.
    assert (Hnone : forall s, In s (AvailableInstances (durable w)) -> ID s <> instanceID).
    { intros s Hin Hs.
      assert (instance_exists instanceID (AvailableInstances (durable w)) = true)
        by (apply instance_exists_spec; exists s; auto).
      congruence. }
    unfold Destroy, Load, emit, bind, ret; cbn.
    rewrite Hload; cbn.
    rewrite destroy_loop_ok by (intros s Hs Hid; exfalso; exact (Hnone s Hs Hid)).
    rewrite Hex, (no_match_with_id _ _ Hnone); cbn.
    rewrite app_nil_r; reflexivity.
Qed.

(** X4: when the state fails to load, [Destroy] returns the persister's
    error unchanged, without asking the cluster to delete anything. *)
Theorem destroy_load_failure_passthrough : forall c instanceID p w e,
  load_fails p = Some e ->
  Destroy c instanceID p w = (Some e, mkWorld (durable w) (events w ++ [EvLoad])).
Proof.
  intros c instanceID p w e Hload.
  unfold Destroy, Load, emit, bind, ret; cbn.
  rewrite Hload; reflexivity.
Qed.

(** X5: when every deletion succeeds but [Save] fails, [Destroy] returns
    the persister's error unchanged and the durable state still holds the
    records whose databases the cluster has already deleted. *)
Theorem destroy_save_failure_after_deletes : forall c instanceID p w s e,
  load_fails p = None -> save_fails p = Some e ->
  In s (AvailableInstances (durable w)) -> ID s = instanceID ->
  (forall s', In s' (AvailableInstances (durable w)) -> ID s' = instanceID ->
              delete_database c (UID (Credentials s')) = None) ->
  fst (Destroy c instanceID p w) = Some e
  /\ durable (snd (Destroy c instanceID p w)) = durable w
  /\ In (EvDeleteDatabase (UID (Credentials s))) (run_events (Destroy c instanceID p) w).
Proof.
  intros c instanceID p w s e Hload Hsave Hin Hs Hdel.
  assert (Hex : instance_exists instanceID (AvailableInstances (durable w)) = true)
    by (apply instance_exists_spec; exists s; auto).
  pose proof (destroy_deletes_ok_run c instanceID p w Hload Hex Hdel) as H.
  cbv zeta in H; rewrite Hsave in H.
  rewrite (run_events_extends _ _ _ _ _ H), H.
  split; [reflexivity | split; [reflexivity|]].
  right; apply in_or_app; left.
  apply (in_map (fun s => EvDeleteDatabase (UID (Credentials s)))).
  apply filter_In; split; [exact Hin | apply String.eqb_eq; exact Hs].
Qed.

(** X6: [Destroy] changes the durable state only when it returns nil, and
    then to the loaded records without those carrying the ID (so none is
    left), after at least one of them had it. *)
Theorem destroy_changes_state_only_on_success : forall c instanceID p w,
  (fst (Destroy c instanceID p w) <> None ->
   durable (snd (Destroy c instanceID p w)) = durable w)
  /\ (fst (Destroy c instanceID p w) = None ->
      (exists s, In s (AvailableInstances (durable w)) /\ ID s = instanceID)
      /\ AvailableInstances (durable (snd (Destroy c instanceID p w))) =
         others instanceID (AvailableInstances (durable w))
      /\ with_id instanceID (AvailableInstances (durable (snd (Destroy c instanceID p w)))) = []).
Proof.
  intros c instanceID p w.
  destruct (destroy_outcome c instanceID p w) as (Hok & Hfail & _).
  split; [exact Hfail|].
  intros Hnone; destruct (Hok Hnone) as [Hex Hst]; rewrite Hst; simpl.
  split; [apply instance_exists_spec; exact Hex|split; [reflexivity|]].
  apply no_match_with_id; intros s Hin Hs.
  unfold others in Hin; apply filter_In in Hin as [_ Hne].
  rewrite Hs, String.eqb_refl in Hne; discriminate.
Qed.

Lemma others_no_match : forall instanceID l,
  (forall s, In s l -> ID s <> instanceID) -> others instanceID l = l.
Proof.
  intros instanceID l; induction l as [|x rest IH]; intros H; [reflexivity|].
  unfold others; simpl.
  destruct (String.eqb_spec (ID x) instanceID) as [E|NE].
  - exfalso; exact (H x (or_introl eq_refl) E).
  - simpl; f_equal; apply IH; intros s Hs; apply H; right; exact Hs.
Qed.

Lemma find_none_all : forall {A} (f : A -> bool) l,
  (forall x, In x l -> f x = false) -> find f l = None.
Proof.
  intros A f l; induction l as [|x rest IH]; intros H; [reflexivity|].
  simpl; rewrite (H x (or_introl eq_refl)); apply IH.
  intros y Hy; apply H; right; exact Hy.
Qed.

Lemma find_appended : forall {A} (f : A -> bool) l x,
  (forall y, In y l -> f y = false) -> f x = true -> find f (l ++ [x]) = Some x.
Proof.
  intros A f l x H Hx; induction l as [|y rest IH]; simpl; [rewrite Hx; reflexivity|].
  rewrite (H y (or_introl eq_refl)); apply IH.
  intros z Hz; apply H; right; exact Hz.
Qed.

Lemma others_none_left : forall instanceID l s,
  In s (others instanceID l) -> ID s <> instanceID.
Proof.
  intros instanceID l s Hin Hs.
  unfold others in Hin; apply filter_In in Hin as [_ Hne].
  rewrite Hs, String.eqb_refl in Hne; discriminate.
Qed.

(** X7: a [Create] of a fresh ID whose credentials arrive before a
    timeout of at most 9223372036 seconds and whose save succeeds, followed
    by a [Destroy] of that ID whose deletion succeeds, returns nil and
    brings the durable state back to what it was before the [Create]. *)
Theorem create_then_destroy_restores_state :
  forall c timeout instanceID settings p w after cr,
    load_fails p = None -> save_fails p = None ->
    (forall s, In s (AvailableInstances (durable w)) -> ID s <> instanceID) ->
    create_database c settings = Ok (Arrives after cr) ->
    (timeout <= 9223372036)%Z -> (Z.of_N after < Second * timeout)%Z ->
    delete_database c (UID cr) = None ->
    let w1 := snd (Create c timeout instanceID settings p w) in
    fst (Destroy c instanceID p w1) = None
    /\ durable (snd (Destroy c instanceID p w1)) = durable w.
Proof.
  intros c timeout instanceID settings p w after cr Hload Hsave Hfresh Hcreate Hmax Hlt Hdel w1.
  pose proof (create_delivered_run c timeout instanceID settings p w after cr
                Hload (instance_exists_false _ _ Hfresh) Hcreate Hmax Hlt) as H.
  cbv zeta in H; rewrite Hsave in H.
  unfold w1; rewrite H; simpl snd.
  set (l := AvailableInstances (durable w)).
  set (w1' := mkWorld (mkState (l ++ [mkServiceInstance instanceID cr]))
                (events w ++ _)).
  assert (Hex : instance_exists instanceID (AvailableInstances (durable w1')) = true).
  { apply instance_exists_spec; exists (mkServiceInstance instanceID cr).
    split; [apply in_or_app; right; left; reflexivity | reflexivity]. }
  assert (Hd : forall s, In s (AvailableInstances (durable w1')) -> ID s = instanceID ->
                         delete_database c (UID (Credentials s)) = None).
  { intros s Hin Hs; simpl in Hin; apply in_app_or in Hin as [Hin|[<-|[]]].
    - exfalso; exact (Hfresh s Hin Hs).
    - exact Hdel. }
  pose proof (destroy_deletes_ok_run c instanceID p w1' Hload Hex Hd) as H2.
  cbv zeta in H2; rewrite Hsave in H2; rewrite H2; simpl.
  split; [reflexivity|].
  unfold others; rewrite filter_app; fold (others instanceID l).
  rewrite (others_no_match instanceID l Hfresh); simpl.
  rewrite String.eqb_refl; simpl; rewrite app_nil_r.
  unfold l; destruct (durable w); reflexivity.
Qed.

(** X8: after a successful [Create] of a fresh ID (credentials arriving
    before a timeout of at most 9223372036 seconds), [Update] of that ID
    loads the state and forwards the parameters for the [UID] of the
    credentials the cluster delivered, and nothing else, returning the
    cluster's answer. *)
Theorem create_then_update_forwards_new_uid :
  forall c timeout instanceID settings params p w after cr,
    load_fails p = None -> save_fails p = None ->
    (forall s, In s (AvailableInstances (durable w)) -> ID s <> instanceID) ->
    create_database c settings = Ok (Arrives after cr) ->
    (timeout <= 9223372036)%Z -> (Z.of_N after < Second * timeout)%Z ->
    let w1 := snd (Create c timeout instanceID settings p w) in
    Update c instanceID params p w1 =
      (update_database c (UID cr) params,
       mkWorld (durable w1) (events w1 ++ [EvLoad; EvUpdateDatabase (UID cr) params])).
Proof.
  intros c timeout instanceID settings params p w after cr Hload Hsave Hfresh Hcreate Hmax Hlt w1.
  pose proof (create_delivered_run c timeout instanceID settings p w after cr
                Hload (instance_exists_false _ _ Hfresh) Hcreate Hmax Hlt) as H.
  cbv zeta in H; rewrite Hsave in H; unfold w1; rewrite H; simpl snd.
  unfold Update, Load, emit, bind, ret; cbn.
  rewrite Hload, update_loop_run; cbn.
  rewrite find_appended; [cbn; rewrite <- app_assoc; reflexivity | |apply String.eqb_refl].
  intros y Hy; apply String.eqb_neq; exact (Hfresh y Hy).
Qed.

(** X9: once [Destroy] of an ID has returned nil, a further [Destroy] or
    [Update] of that ID reports that the instance does not exist. *)
Theorem destroyed_instance_is_gone : forall c c' instanceID params p w,
  load_fails p = None ->
  fst (Destroy c instanceID p w) = None ->
  let w1 := snd (Destroy c instanceID p w) in
  fst (Destroy c' instanceID p w1) = Some ErrInstanceDoesNotExist
  /\ fst (Update c' instanceID params p w1) = Some ErrInstanceDoesNotExist.
Proof.
  intros c c' instanceID params p w Hload Hnone w1.
  destruct (destroy_outcome c instanceID p w) as (Hok & _ & _).
  destruct (Hok Hnone) as [_ Hst].
  assert (Hgone : forall s, In s (AvailableInstances (durable w1)) -> ID s <> instanceID)
    by (unfold w1; rewrite Hst; simpl; intros s Hin; exact (others_none_left _ _ _ Hin)).
  split.
  - destruct (destroy_outcome c' instanceID p w1) as (_ & _ & H).
    rewrite (H Hload (instance_exists_false _ _ Hgone)); reflexivity.
  - destruct (update_run c' instanceID params p w1) as (ev & H1 & _ & _).
    rewrite H1, Hload; simpl.
    rewrite find_none_all; [reflexivity|].
    intros y Hy; apply String.eqb_neq; exact (Hgone y Hy).
Qed.

Lemma run_op_durable_nodup : forall o w,
  NoDup (map ID (AvailableInstances (durable w))) ->
  NoDup (map ID (AvailableInstances (durable (snd (run_op o w))))).
Proof.
  intros [c timeout instanceID settings p | c instanceID params p
         | c instanceID p | instanceID p] w Hnd;
    unfold run_op, bind, ret.
  - destruct (create_outcome c timeout instanceID settings p w) as [Hok Hfail].
    destruct (Create c timeout instanceID settings p w) as [r w1] eqn:E; simpl in *.
    destruct r as [e|].
    + rewrite (Hfail ltac:(discriminate)); exact Hnd.
    + destruct (Hok eq_refl) as [Hex [cr ->]]; simpl.
      apply nodup_ids_append; [exact Hnd | exact Hex].
  - destruct (update_run c instanceID params p w) as (ev & H & _ & _).
    rewrite H; simpl; exact Hnd.
  - destruct (destroy_outcome c instanceID p w) as (Hok & Hfail & _).
    destruct (Destroy c instanceID p w) as [r w1] eqn:E; simpl in *.
    destruct r as [e|].
    + rewrite (Hfail ltac:(discriminate)); exact Hnd.
    + destruct (Hok eq_refl) as [_ ->]; simpl.
      apply nodup_ids_others; exact Hnd.
  - simpl; exact Hnd.
Qed.

(** X10: any sequence of [Create], [Update], [Destroy] and
    [InstanceExists] calls, each with its own cluster and persister
    behaviour, run one after the other on a durable state whose IDs are
    pairwise distinct, leaves a durable state whose IDs are pairwise
    distinct. *)
Theorem run_ops_preserve_unique_ids : forall ops w,
  NoDup (map ID (AvailableInstances (durable w))) ->
  NoDup (map ID (AvailableInstances (durable (snd (run_ops ops w))))).
Proof.
  intros ops; induction ops as [|o rest IH]; intros w Hnd; [exact Hnd|].
  simpl; unfold bind.
  pose proof (run_op_durable_nodup o w Hnd) as H1.
  destruct (run_op o w) as [u w1]; simpl in H1 |- *.
  exact (IH w1 H1).
Qed.

(** X11: in every interleaving of concurrent calls, the mutex of a
    manager is locked exactly when some [Create] call on that manager has
    taken it and not yet released it. *)
Theorem mutex_locked_iff_create_inside : forall calls cfg d,
  steps (init calls) cfg ->
  (mutex_locked cfg d = true <->
   exists i k t,
     nth_error calls i = Some k /\ nth_error (threads cfg) i = Some t
     /\ call_manager k = d /\ is_create k = true /\ inside t = true).
Proof.
  intros calls cfg d Hsteps.
  destruct (mutex_inv_steps calls _ _ Hsteps (mutex_inv_init calls)) as [Hmap Hcnt].
  specialize (Hcnt d); unfold count_inside_on in Hcnt.
  split.
  - intros Hl; rewrite Hl in Hcnt.
    destruct (filter (inside_on d) (threads cfg)) as [|t ts] eqn:F; [discriminate|].
    assert (Ht : In t (filter (inside_on d) (threads cfg))) by (rewrite F; left; reflexivity).
    apply filter_In in Ht as [Ht Hin].
    rewrite inside_on_unfold in Hin; apply andb_true_iff in Hin as [Hd Hin].
    apply Nat.eqb_eq in Hd.
    apply In_nth_error in Ht as [i Hi].
    destruct (thread_program calls _ i t Hmap Hi) as (k & Hk & Hmgr & Hprog).
    exists i, k, t; repeat split; auto; [congruence|].
    destruct (call_events_shape k) as [[Hc _]|[_ Hlf]]; [exact Hc|].
    unfold inside in Hin.
    rewrite <- Hprog, (holds_lock_free_prog _ (pc t) Hlf) in Hin; discriminate.
  - intros (i & k & t & Hk & Hi & Hd & Hc & Hin).
    destruct (mutex_locked cfg d); [reflexivity|].
    destruct (thread_program calls _ i t Hmap Hi) as (k' & Hk' & Hmgr & _).
    rewrite Hk in Hk'; injection Hk' as <-.
    assert (Ht : In t (filter (inside_on d) (threads cfg))).
    { apply filter_In; split; [exact (nth_error_In _ _ Hi)|].
      rewrite inside_on_unfold, Hin, <- Hmgr, Hd, Nat.eqb_refl; reflexivity. }
    destruct (filter (inside_on d) (threads cfg)); [destruct Ht | discriminate].
Qed.

Lemma find_first_match : forall {A} (f : A -> bool) pre x post,
  (forall y, In y pre -> f y = false) -> f x = true -> find f (pre ++ x :: post) = Some x.
Proof.
  intros A f pre x post H Hx; induction pre as [|y rest IH]; simpl; [rewrite Hx; reflexivity|].
  rewrite (H y (or_introl eq_refl)); apply IH.
  intros z Hz; apply H; right; exact Hz.
Qed.

(** X12: when several loaded records carry the ID, [Update] forwards the
    parameters for the [UID] of the first of them only, and records no
    other call than the load and that update. *)
Theorem update_uses_first_match : forall c instanceID params p w pre s post,
  load_fails p = None ->
  AvailableInstances (durable w) = pre ++ s :: post ->
  (forall s', In s' pre -> ID s' <> instanceID) ->
  ID s = instanceID ->
  Update c instanceID params p w =
    (update_database c (UID (Credentials s)) params,
     mkWorld (durable w)
       (events w ++ [EvLoad; EvUpdateDatabase (UID (Credentials s)) params])).
Proof.
  intros c instanceID params p w pre s post Hload Hl Hpre Hs.
  unfold Update, Load, emit, bind, ret; cbn.
  rewrite Hload, update_loop_run; cbn.
  rewrite Hl, find_first_match.
  - cbn; rewrite <- app_assoc; reflexivity.
  - intros y Hy; apply String.eqb_neq; exact (Hpre y Hy).
  - apply String.eqb_eq; exact Hs.
Qed.

(** X13: when the state fails to load, [Update] returns the persister's
    error unchanged, without asking the cluster to update anything. *)
Theorem update_load_failure_passthrough : forall c instanceID params p w e,
  load_fails p = Some e ->
  Update c instanceID params p w = (Some e, mkWorld (durable w) (events w ++ [EvLoad])).
Proof.
  intros c instanceID params p w e Hload.
  unfold Update, Load, emit, bind, ret; cbn.
  rewrite Hload; reflexivity.
Qed.

(** X1 on a cluster that rejects the request. *)
Lemma create_client_rejection_passthrough_witness :
  Create client_rejecting WaitingForDatabaseTimeout_default "x" [] persister_ok (world_of [])
  = (Some (ClientErr 2),
     mkWorld (mkState []) [EvLock; EvLoad; EvCreateDatabase []; EvUnlock]).
Proof.
  exact (create_client_rejection_passthrough client_rejecting
           WaitingForDatabaseTimeout_default "x" [] persister_ok (world_of [])
           (ClientErr 2) eq_refl (fun s H => match H with end) eq_refl).
Defined.

(** X2 with a persister whose save fails. *)
Lemma create_save_failure_reported_witness :
  fst (Create (client_delivering (cred 7)) WaitingForDatabaseTimeout_default "x" []
         persister_save_failing (world_of [record_a])) = Some ErrFailedToSaveState
  /\ durable (snd (Create (client_delivering (cred 7)) WaitingForDatabaseTimeout_default
                     "x" [] persister_save_failing (world_of [record_a])))
     = mkState [record_a]
  /\ In (EvCreateDatabase [])
        (run_events (Create (client_delivering (cred 7)) WaitingForDatabaseTimeout_default
                       "x" [] persister_save_failing) (world_of [record_a])).
Proof.
  exact (create_save_failure_reported (client_delivering (cred 7))
           WaitingForDatabaseTimeout_default "x" [] persister_save_failing
           (world_of [record_a]) 1000000000%N (cred 7) (PersisterErr 3) eq_refl eq_refl
           ltac:(intros s [<-|[]]; discriminate) eq_refl
           ltac:(unfold WaitingForDatabaseTimeout_default; lia)
           ltac:(unfold WaitingForDatabaseTimeout_default, Second; lia)).
Defined.

(** X4 with a persister whose load fails. *)
Lemma destroy_load_failure_passthrough_witness :
  Destroy client_delete_failing "a" persister_load_failing (world_of [record_a])
  = (Some (PersisterErr 4), mkWorld (mkState [record_a]) [EvLoad]).
Proof.
  exact (destroy_load_failure_passthrough client_delete_failing "a"
           persister_load_failing (world_of [record_a]) (PersisterErr 4) eq_refl).
Defined.

(** X5 with a persister whose save fails. *)
Lemma destroy_save_failure_after_deletes_witness :
  fst (Destroy (client_delivering (cred 7)) "a" persister_save_failing (world_of [record_a]))
    = Some (PersisterErr 3)
  /\ durable (snd (Destroy (client_delivering (cred 7)) "a" persister_save_failing
                     (world_of [record_a]))) = mkState [record_a]
  /\ In (EvDeleteDatabase 1)
        (run_events (Destroy (client_delivering (cred 7)) "a" persister_save_failing)
           (world_of [record_a])).
Proof.
  exact (destroy_save_failure_after_deletes (client_delivering (cred 7)) "a"
           persister_save_failing (world_of [record_a]) record_a (PersisterErr 3)
           eq_refl eq_refl (or_introl eq_refl) eq_refl (fun _ _ _ => eq_refl)).
Defined.

(** X7 from a one-record state: create ["x"], then destroy it. *)
Lemma create_then_destroy_restores_state_witness :
  let w1 := snd (Create (client_delivering (cred 7)) WaitingForDatabaseTimeout_default
                   "x" [] persister_ok (world_of [record_a])) in
  fst (Destroy (client_delivering (cred 7)) "x" persister_ok w1) = None
  /\ durable (snd (Destroy (client_delivering (cred 7)) "x" persister_ok w1))
     = mkState [record_a].
Proof.
  exact (create_then_destroy_restores_state (client_delivering (cred 7))
           WaitingForDatabaseTimeout_default "x" [] persister_ok (world_of [record_a])
           1000000000%N (cred 7) eq_refl eq_refl ltac:(intros s [<-|[]]; discriminate) eq_refl
           ltac:(unfold WaitingForDatabaseTimeout_default; lia)
           ltac:(unfold WaitingForDatabaseTimeout_default, Second; lia) eq_refl).
Defined.

(** X8 from a one-record state: create ["x"], then update it. *)
Lemma create_then_update_forwards_new_uid_witness :
  Update (client_delivering (cred 7)) "x" [] persister_ok
    (snd (Create (client_delivering (cred 7)) WaitingForDatabaseTimeout_default
            "x" [] persister_ok (world_of [record_a])))
  = (None,
     mkWorld (mkState [record_a; mkServiceInstance "x" (cred 7)])
       [EvLock; EvLoad; EvCreateDatabase []; EvReceive;
        EvSave (mkState [record_a; mkServiceInstance "x" (cred 7)]); EvUnlock;
        EvLoad; EvUpdateDatabase 7 []]).
Proof.
  pose proof (create_then_update_forwards_new_uid (client_delivering (cred 7))
           WaitingForDatabaseTimeout_default "x" [] [] persister_ok (world_of [record_a])
           1000000000%N (cred 7) eq_refl eq_refl ltac:(intros s [<-|[]]; discriminate) eq_refl
           ltac:(unfold WaitingForDatabaseTimeout_default; lia)
           ltac:(unfold WaitingForDatabaseTimeout_default, Second; lia)) as H.
  cbv zeta in H; rewrite H; vm_compute; reflexivity.
Defined.

(** X9 from a one-record state: destroy ["a"], then destroy or update it. *)
Lemma destroyed_instance_is_gone_witness :
  let w1 := snd (Destroy (client_delivering (cred 7)) "a" persister_ok (world_of [record_a])) in
  fst (Destroy client_delete_failing "a" persister_ok w1) = Some ErrInstanceDoesNotExist
  /\ fst (Update client_delete_failing "a" [] persister_ok w1) = Some ErrInstanceDoesNotExist.
Proof.
  exact (destroyed_instance_is_gone (client_delivering (cred 7)) client_delete_failing
           "a" [] persister_ok (world_of [record_a]) eq_refl
           ltac:(vm_compute; reflexivity)).
Defined.

(** X10 on a sequence of creations and a destruction. *)
Lemma run_ops_preserve_unique_ids_witness :
  NoDup (map ID (AvailableInstances (durable (snd (run_ops
    [OpCreate (client_delivering (cred 7)) WaitingForDatabaseTimeout_default "x" [] persister_ok;
     OpDestroy (client_delivering (cred 7)) "a" persister_ok;
     OpCreate (client_delivering (cred 8)) WaitingForDatabaseTimeout_default "a" [] persister_ok;
     OpCreate (client_delivering (cred 9)) WaitingForDatabaseTimeout_default "x" [] persister_ok]
    (world_of [record_a])))))).
Proof.
  apply run_ops_preserve_unique_ids; simpl; repeat constructor; intros [].
Defined.

(** X11 on two concurrent creations on one manager, after the first
    has taken the mutex. *)
Lemma mutex_locked_iff_create_inside_witness :
  exists cfg, steps (init two_creates) cfg
    /\ exists i k t, nth_error two_creates i = Some k /\ nth_error (threads cfg) i = Some t
                    /\ call_manager k = 0 /\ is_create k = true /\ inside t = true.
Proof.
  assert (Hs : exists cfg, steps (init two_creates) cfg /\ mutex_locked cfg 0 = true).
  { eexists; split.
    - eapply steps_snoc; [apply steps_refl|].
      eapply (step_call _ 0 _ EvLock true);
        [reflexivity | vm_compute; reflexivity | vm_compute; reflexivity].
    - reflexivity. }
  destruct Hs as (cfg & Hs & Hl); exists cfg; split; [exact Hs|].
  exact (proj1 (mutex_locked_iff_create_inside two_creates cfg 0 Hs) Hl).
Defined.

(** X12 on a state holding two records with the ID ["a"]. *)
Lemma update_uses_first_match_witness :
  Update (client_delivering (cred 7)) "a" [] persister_ok
    (world_of [mkServiceInstance "a" (cred 1); mkServiceInstance "a" (cred 2)])
  = (update_database (client_delivering (cred 7)) 1 [],
     mkWorld (mkState [mkServiceInstance "a" (cred 1); mkServiceInstance "a" (cred 2)])
       [EvLoad; EvUpdateDatabase 1 []]).
Proof.
  exact (update_uses_first_match (client_delivering (cred 7)) "a" [] persister_ok
           (world_of [mkServiceInstance "a" (cred 1); mkServiceInstance "a" (cred 2)])
           [] (mkServiceInstance "a" (cred 1)) [mkServiceInstance "a" (cred 2)]
           eq_refl eq_refl (fun s' H => match H with end) eq_refl).
Defined.

(** X13 with a persister whose load fails. *)
Lemma update_load_failure_passthrough_witness :
  Update (client_delivering (cred 7)) "a" [] persister_load_failing (world_of [record_a])
  = (Some (PersisterErr 4), mkWorld (mkState [record_a]) [EvLoad]).
Proof.
  exact (update_load_failure_passthrough (client_delivering (cred 7)) "a" []
           persister_load_failing (world_of [record_a]) (PersisterErr 4) eq_refl).
Defined.
